(** * Qualitative_Analysis.ipynb: cleaning, sampling, rater batches, labels

    A shallow embedding of the qualitative-analysis notebook
    ([notebooks/Qualitative_Analysis.ipynb]) and the properties of its
    cells.  Python strings are sequences of Unicode code points, tables
    are lists of records, exceptions are an explicit error result, and
    the seeded NumPy generator behind [DataFrame.sample] is a record
    holding the permutation it draws. *)

From Stdlib Require Import String Ascii.
From Stdlib Require Import List Bool Arith NArith ZArith QArith Lia.
From Stdlib Require Import Permutation Sorted.
From Stdlib Require Import DecimalNat.
Import ListNotations.

Set Implicit Arguments.

Local Open Scope N_scope.

(* ================================================================== *)
(** ** Python strings *)

(** A [str] is the list of its code points. *)
Definition pystr := list N.

(** An ASCII literal as a [pystr]. *)
Fixpoint str_of (s : string) : pystr :=
  match s with
  | EmptyString => []
  | String a t => N_of_ascii a :: str_of t
  end.

Definition str_eqb (a b : pystr) : bool :=
  if list_eq_dec N.eq_dec a b then true else false.

(** [missing] cells (NaN / None) of a text column. *)
Definition cell := option pystr.

Definition isna {A} (c : option A) : bool :=
  match c with None => true | Some _ => false end.

Definition notna {A} (c : option A) : bool := negb (isna c).

(** Element-wise [==] of two object columns: a missing value equals
    nothing, itself included. *)
Definition series_eq (a b : cell) : bool :=
  match a, b with
  | Some x, Some y => str_eqb x y
  | _, _ => false
  end.

(** The character tables of Python's [str] methods outside ASCII are
    not part of the repository; they are a parameter of the model. *)
Class UnicodeData := {
  uni_isalpha : N -> bool;          (* [str.isalpha], code points >= 128 *)
  uni_isupper : N -> bool;          (* [str.isupper], code points >= 128 *)
  uni_isdigit : N -> bool;          (* [str.isdigit], code points >= 128 *)
  uni_decimal : N -> option N       (* decimal value read by [float] *)
}.

(** A table with no letters and no digits outside ASCII, for running
    the definitions on ASCII inputs. *)
Definition ascii_only : UnicodeData :=
  {| uni_isalpha := fun _ => false;
     uni_isupper := fun _ => false;
     uni_isdigit := fun _ => false;
     uni_decimal := fun _ => None |}.

Definition between (lo hi c : N) : bool := (lo <=? c) && (c <=? hi).

Definition ascii_upper (c : N) : bool := between 65 90 c.
Definition ascii_lower (c : N) : bool := between 97 122 c.
Definition ascii_digit (c : N) : bool := between 48 57 c.

Definition dot : N := 46.
Definition underscore : N := 95.
Definition slash : N := 47.

Section Characters.
Context {U : UnicodeData}.

Definition isalpha (c : N) : bool :=
  if c <? 128 then ascii_upper c || ascii_lower c else uni_isalpha c.

Definition isupper (c : N) : bool :=
  if c <? 128 then ascii_upper c else uni_isupper c.

Definition isdigit (c : N) : bool :=
  if c <? 128 then ascii_digit c else uni_isdigit c.

(** The digit value [float] gives a character, if it is a decimal
    digit. *)
Definition decimal_value (c : N) : option N :=
  if c <? 128 then (if ascii_digit c then Some (c - 48) else None)
  else uni_decimal c.
End Characters.

(** [''.join(parts)] *)
Definition str_join (parts : list pystr) : pystr := concat parts.

(** [pat] is a prefix of [s]. *)
Fixpoint str_startswith (pat s : pystr) : bool :=
  match pat, s with
  | [], _ => true
  | _ :: _, [] => false
  | p :: pat', c :: s' => (p =? c) && str_startswith pat' s'
  end.

(** [pat in s]; also [Series.str.contains(pat)] for a pattern without
    regular-expression metacharacters. *)
Fixpoint str_contains (pat s : pystr) : bool :=
  str_startswith pat s ||
  match s with
  | [] => false
  | _ :: s' => str_contains pat s'
  end.

(** [s.replace(pat, '')] for a non-empty [pat]: occurrences are removed
    left to right, without overlap.  [skip] counts the characters of
    the occurrence being removed. *)
Fixpoint str_remove_go (pat : pystr) (skip : nat) (s : pystr) : pystr :=
  match s with
  | [] => []
  | c :: t =>
      match skip with
      | S k => str_remove_go pat k t
      | O => if str_startswith pat s
             then str_remove_go pat (Nat.pred (length pat)) t
             else c :: str_remove_go pat 0 t
      end
  end.

Definition str_remove (pat s : pystr) : pystr := str_remove_go pat 0 s.

(** [s.split(sep)] for a one-character separator. *)
Fixpoint str_split (sep : N) (s : pystr) : list pystr :=
  match s with
  | [] => [[]]
  | c :: t =>
      if c =? sep then [] :: str_split sep t
      else match str_split sep t with
           | h :: r => (c :: h) :: r
           | [] => [[c]]
           end
  end.

(** Python's ordering of strings: lexicographic on code points. *)
Fixpoint str_compare (a b : pystr) : comparison :=
  match a, b with
  | [], [] => Eq
  | [], _ :: _ => Lt
  | _ :: _, [] => Gt
  | x :: a', y :: b' =>
      match x ?= y with
      | Eq => str_compare a' b'
      | c => c
      end
  end.

(* ================================================================== *)
(** ** Exceptions *)

Inductive exn :=
| KeyError
| ValueError
| IndexError
| TypeError
| OverflowError
| AttributeError.

Inductive result (A : Type) :=
| Ok (a : A)
| Raise (e : exn).
Arguments Ok {A} a.
Arguments Raise {A} e.

Definition bind {A B} (m : result A) (k : A -> result B) : result B :=
  match m with
  | Ok a => k a
  | Raise e => Raise e
  end.

Notation "x <- m ;; k" := (bind m (fun x => k))
  (at level 61, m at next level, right associativity).

Definition exn_eqb (a b : exn) : bool :=
  match a, b with
  | KeyError, KeyError | ValueError, ValueError
  | IndexError, IndexError | TypeError, TypeError
  | OverflowError, OverflowError | AttributeError, AttributeError => true
  | _, _ => false
  end.

(** [try: body  except (kinds): return handler]: an exception of
    another kind goes on to the caller. *)
Definition try_except {A} (body : result A) (kinds : list exn) (handler : A)
  : result A :=
  match body with
  | Ok a => Ok a
  | Raise e => if existsb (exn_eqb e) kinds then Ok handler else Raise e
  end.

(* ================================================================== *)
(** ** Cell cleaning: [clean_answer], [clean_confidence_value] *)

(** A float.  A finite value is kept as the exact number it was read
    from: rounding to the nearest double is not modelled.  What lies
    beyond the range of a double is: such a value is infinite. *)
Inductive pyfloat :=
| Finite (q : Q)
| Infinite (negative : bool).

(** The least magnitude that no longer rounds to a finite double:
    half an ulp above the largest double, [2^1024 - 2^970]. *)
Definition float_overflow : Z := (Z.shiftl 1 1024 - Z.shiftl 1 970)%Z.

(** A value of the [Model_Confidence] column, as far as
    [clean_confidence_value] tells values apart: missing, text, a
    float (or a NumPy integer, which converts without loss of range),
    a Python integer of any size, as a column of objects can hold it,
    or a boolean. *)
Inductive conf_cell :=
| CMissing
| CStr (s : pystr)
| CFloat (x : pyfloat)
| CInt (z : Z)
| CBool (b : bool).

Section Cleaning.
Context {U : UnicodeData}.

(** [clean_answer]: the answer columns hold text or are missing. *)
Definition clean_answer (answer : cell) : cell :=
  match answer with
  | None => answer
  | Some s => Some (str_join (map (fun char => [char]) (filter isalpha s)))
  end.

(** [10 ^ k] *)
Definition pow10 (k : nat) : positive := Nat.iter k (Pos.mul 10) 1%positive.

(** Digits of a run read as a base-ten number, most significant
    first; [None] if a character is not a decimal digit. *)
Fixpoint digits_value (acc : N) (s : pystr) : option N :=
  match s with
  | [] => Some acc
  | c :: t =>
      match decimal_value c with
      | Some d => digits_value (10 * acc + d) t
      | None => None
      end
  end.

(** The float nearest to the decimal [n / 10^k]: infinite from
    [float_overflow] on. *)
Definition float_of_decimal (n : N) (k : nat) : pyfloat :=
  if (float_overflow * Z.pos (pow10 k) <=? Z.of_N n)%Z
  then Infinite false
  else Finite (Z.of_N n # pow10 k).

(** [float(s)] on a string of digit and ['.'] characters, which is
    all that the filter of [clean_confidence_value] lets through:
    digits with at most one point and at least one digit.  Text never
    overflows into an exception; it reads as infinity. *)
Definition float_of_str (s : pystr) : result pyfloat :=
  match str_split dot s with
  | [ip] =>
      match ip, digits_value 0 ip with
      | _ :: _, Some n => Ok (float_of_decimal n 0)
      | _, _ => Raise ValueError
      end
  | [ip; fp] =>
      match ip ++ fp, digits_value 0 (ip ++ fp) with
      | _ :: _, Some n => Ok (float_of_decimal n (length fp))
      | _, _ => Raise ValueError
      end
  | _ => Raise ValueError
  end.

(** [float(x)].  A Python integer beyond the range of a double raises
    [OverflowError]. *)
Definition float_of_cell (x : conf_cell) : result pyfloat :=
  match x with
  | CMissing => Raise TypeError
  | CStr s => float_of_str s
  | CFloat x => Ok x
  | CInt z =>
      if (float_overflow <=? Z.abs z)%Z then Raise OverflowError
      else Ok (Finite (z # 1))
  | CBool b => Ok (Finite (if b then 1 else 0)%Q)
  end.

Definition clean_confidence_value (x : conf_cell) : result (option pyfloat) :=
  match x with
  | CMissing => Ok None
  | _ =>
      try_except
        (let x' := match x with
                   | CStr s =>
                       CStr (str_join (map (fun c => [c])
                               (filter (fun c => isdigit c || (c =? dot)) s)))
                   | _ => x
                   end in
         q <- float_of_cell x' ;; Ok (Some q))
        [ValueError; TypeError] None
  end.
End Cleaning.

(* ================================================================== *)
(** ** Tables *)

(** A [DataFrame] of the pipeline is either [pd.DataFrame()], which has
    no rows and none of the result columns (assigning [code] or
    [comment] to it adds only those), or a table with the columns of
    its row type. *)
Inductive DataFrame (A : Type) :=
| Blank
| Table (rows : list A).
Arguments Blank {A}.
Arguments Table {A} rows.

Definition frame_rows {A} (df : DataFrame A) : list A :=
  match df with
  | Blank => []
  | Table rows => rows
  end.

(** [pd.concat(frames, ignore_index=True) if frames else pd.DataFrame()] *)
Definition concat_or_blank {A} (frames : list (list A)) : DataFrame A :=
  match frames with
  | [] => Blank
  | _ :: _ => Table (concat frames)
  end.

(** [l[i]] *)
Definition getitem {A} (l : list A) (i : nat) : result A :=
  match nth_error l i with
  | Some a => Ok a
  | None => Raise IndexError
  end.

(** [l.index(x)] *)
Fixpoint list_index (x : pystr) (l : list pystr) : result nat :=
  match l with
  | [] => Raise ValueError
  | y :: t => if str_eqb y x then Ok O else (i <- list_index x t ;; Ok (S i))
  end.

(** [rows.iloc[start:stop]] *)
Definition iloc {A} (rows : list A) (start stop : nat) : list A :=
  firstn (stop - start) (skipn start rows).

(** [Series.unique()]: values in order of first appearance; the missing
    value counts as one value. *)
Definition same_value (a b : cell) : bool :=
  match a, b with
  | None, None => true
  | Some x, Some y => str_eqb x y
  | _, _ => false
  end.

Fixpoint unique (l : list cell) : list cell :=
  match l with
  | [] => []
  | x :: t => x :: filter (fun y => negb (same_value x y)) (unique t)
  end.

(** [Series.isin(values)] on a column of strings. *)
Definition isin (x : pystr) (values : list pystr) : bool :=
  existsb (str_eqb x) values.

(** [Series.str.contains(pat, na=False)] *)
Definition contains_na_false (pat : pystr) (c : cell) : bool :=
  match c with
  | Some s => str_contains pat s
  | None => false
  end.

(* ------------------------------------------------------------------ *)
(** *** Records *)

(** A row of a results file as [read_csv] returns it. *)
Module Raw.
Record row := {
  Question_ID : cell;
  Question : cell;
  Selections : cell;
  Correct_Answer : cell;
  Model_Answer : cell;
  Model_Confidence : conf_cell;
  Official_Explanation : cell;
  Model_Explanation : cell;
  Model : cell
}.
End Raw.

(** A result record: a cleaned row with the columns taken from the
    file name and the derived correctness. *)
Record Row := {
  Question_ID : cell;
  Question : cell;
  Selections : cell;
  Correct_Answer : cell;
  Model_Answer : cell;
  Model_Confidence : option pyfloat;
  Official_Explanation : cell;
  Model_Explanation : cell;
  Model : cell;
  Condition : pystr;
  Exam_Type : pystr;
  Question_Type : pystr;
  Is_Correct : bool
}.

(** A sample record: a result record with its identifier and the two
    empty annotation columns. *)
Record Sample := {
  Sample_ID : pystr;
  base : Row;
  code : cell;
  comment : cell
}.

(** The columns handed to raters. *)
Module Rater.
Record row := {
  Sample_ID : pystr;
  Question : cell;
  Selections : cell;
  Correct_Answer : cell;
  Model_Answer : cell;
  Official_Explanation : cell;
  Model_Explanation : cell;
  code : cell;
  comment : cell
}.
End Rater.

Definition rater_columns (s : Sample) : Rater.row :=
  {| Rater.Sample_ID := Sample_ID s;
     Rater.Question := Question (base s);
     Rater.Selections := Selections (base s);
     Rater.Correct_Answer := Correct_Answer (base s);
     Rater.Model_Answer := Model_Answer (base s);
     Rater.Official_Explanation := Official_Explanation (base s);
     Rater.Model_Explanation := Model_Explanation (base s);
     Rater.code := code s;
     Rater.comment := comment s |}.

(** A results file found by [glob]: its path and its rows. *)
Record CsvFile := {
  path : pystr;
  contents : list Raw.row
}.

(* ================================================================== *)
(** ** [load_and_process_files] *)

(** [os.path.basename] *)
Definition basename (p : pystr) : pystr := last (str_split slash p) [].

Section Loading.
Context {U : UnicodeData}.

(** The three [apply] calls, the three columns taken from the file
    name, and the comparison column. *)
Definition process_row (condition exam_type question_type : pystr)
    (r : Raw.row) : result Row :=
  let model_answer := clean_answer (Raw.Model_Answer r) in
  model_confidence <- clean_confidence_value (Raw.Model_Confidence r) ;;
  let correct_answer := clean_answer (Raw.Correct_Answer r) in
  Ok {| Question_ID := Raw.Question_ID r;
        Question := Raw.Question r;
        Selections := Raw.Selections r;
        Correct_Answer := correct_answer;
        Model_Answer := model_answer;
        Model_Confidence := model_confidence;
        Official_Explanation := Raw.Official_Explanation r;
        Model_Explanation := Raw.Model_Explanation r;
        Model := Raw.Model r;
        Condition := condition;
        Exam_Type := exam_type;
        Question_Type := question_type;
        Is_Correct := series_eq model_answer correct_answer |}.

(** [Series.apply] over the rows of one file. *)
Fixpoint process_rows (condition exam_type question_type : pystr)
    (rows : list Raw.row) : result (list Row) :=
  match rows with
  | [] => Ok []
  | r :: t =>
      r' <- process_row condition exam_type question_type r ;;
      t' <- process_rows condition exam_type question_type t ;;
      Ok (r' :: t')
  end.

(** The body of the loop over the files: [None] where the source
    [continue]s, the cleaned frame where it appends. *)
Definition process_file (file : CsvFile) : result (option (list Row)) :=
  let filename := basename (path file) in
  let parts := str_split underscore (str_remove (str_of ".csv") filename) in
  if negb (length parts =? 6)%nat then Ok None
  else
    exam_type <- getitem parts 1 ;;
    model <- getitem parts 2 ;;
    p3 <- getitem parts 3 ;;
    p4 <- getitem parts 4 ;;
    let condition := p3 ++ p4 in
    question_type <- getitem parts 5 ;;
    is_condition1 <-
      try_except
        (condition_index <- list_index (str_of "condition") parts ;;
         condition_num <- getitem parts (condition_index + 1) ;;
         Ok (str_eqb condition_num (str_of "1")))
        [ValueError] false ;;
    if negb is_condition1 then Ok None
    else
      df <- process_rows condition exam_type question_type (contents file) ;;
      Ok (Some df).

Fixpoint load_loop (csv_files : list CsvFile) (dfs : list (list Row))
  : result (list (list Row)) :=
  match csv_files with
  | [] => Ok dfs
  | file :: rest =>
      r <- process_file file ;;
      match r with
      | None => load_loop rest dfs
      | Some df => load_loop rest (dfs ++ [df])
      end
  end.

(** [csv_files] is what [glob.glob] returns. *)
Definition load_and_process_files (csv_files : list CsvFile)
  : result (DataFrame Row) :=
  dfs <- load_loop csv_files [] ;;
  Ok (concat_or_blank dfs).
End Loading.

(* ================================================================== *)
(** ** Seeded sampling *)

(** [np.random.RandomState(seed).permutation(n)]: the generator is
    known only as a function from the seed and the population size to
    an ordering of [0 .. n-1]. *)
Record RandomState := {
  permutation : nat -> nat -> list nat;
  permutation_spec : forall seed n, Permutation (permutation seed n) (seq 0 n)
}.

(** [rows.take(locs)] *)
Definition take {A} (rows : list A) (locs : list nat) : list A :=
  flat_map (fun i => match nth_error rows i with
                     | Some r => [r]
                     | None => []
                     end) locs.

(** [rows.sample(n=n, random_state=seed)]: without replacement, the
    first [n] positions of the seeded permutation. *)
Definition sample (rng : RandomState) {A} (rows : list A) (n seed : nat)
  : result (list A) :=
  if (length rows <? n)%nat then Raise ValueError
  else Ok (take rows (firstn n (permutation rng seed (length rows)))).

(** [rows.sample(frac=1, random_state=seed)] *)
Definition sample_all (rng : RandomState) {A} (rows : list A) (seed : nat)
  : result (list A) :=
  sample rng rows (length rows) seed.

(* ================================================================== *)
(** ** [create_samples] *)

(** The marker of a declined answer, U+8DF3 U+8FC7. *)
Definition skip_marker : pystr := [36339; 36807].

(** Missing values sort last. *)
Definition cell_compare (a b : cell) : comparison :=
  match a, b with
  | Some x, Some y => str_compare x y
  | Some _, None => Lt
  | None, Some _ => Gt
  | None, None => Eq
  end.

(** [by=['Model','Exam_Type','Question_Type'], ascending=[True, True, False]] *)
Definition row_compare (a b : Row) : comparison :=
  match cell_compare (Model a) (Model b) with
  | Eq =>
      match str_compare (Exam_Type a) (Exam_Type b) with
      | Eq => str_compare (Question_Type b) (Question_Type a)
      | c => c
      end
  | c => c
  end.

Definition row_leb (a b : Row) : bool :=
  match row_compare a b with
  | Gt => false
  | _ => true
  end.

Fixpoint insert_row (r : Row) (l : list Row) : list Row :=
  match l with
  | [] => [r]
  | h :: t => if row_leb r h then r :: l else h :: insert_row r t
  end.

(** The sort, as an insertion sort; rows with equal keys keep their
    order. *)
Fixpoint sort_rows (l : list Row) : list Row :=
  match l with
  | [] => []
  | r :: t => insert_row r (sort_rows t)
  end.

(** [df.sort_values(by=[...], ignore_index=True, ascending=[...])]: the
    blank frame has no [Model] column. *)
Definition sort_values (df : DataFrame Row) : result (list Row) :=
  match df with
  | Blank => Raise KeyError
  | Table rows => Ok (sort_rows rows)
  end.

Definition digit_char (d : nat) : N := 48 + N.of_nat d.

Fixpoint uint_chars (u : Decimal.uint) : pystr :=
  match u with
  | Decimal.Nil => []
  | Decimal.D0 u' => digit_char 0 :: uint_chars u'
  | Decimal.D1 u' => digit_char 1 :: uint_chars u'
  | Decimal.D2 u' => digit_char 2 :: uint_chars u'
  | Decimal.D3 u' => digit_char 3 :: uint_chars u'
  | Decimal.D4 u' => digit_char 4 :: uint_chars u'
  | Decimal.D5 u' => digit_char 5 :: uint_chars u'
  | Decimal.D6 u' => digit_char 6 :: uint_chars u'
  | Decimal.D7 u' => digit_char 7 :: uint_chars u'
  | Decimal.D8 u' => digit_char 8 :: uint_chars u'
  | Decimal.D9 u' => digit_char 9 :: uint_chars u'
  end.

(** [f"{i:03d}"]: decimal digits, padded with zeros on the left to at
    least three characters. *)
Definition format_03d (i : nat) : pystr :=
  let digits := uint_chars (Nat.to_uint i) in
  repeat (digit_char 0) (3 - length digits) ++ digits.

(** [f"S{i:03d}"] *)
Definition sample_id (i : nat) : pystr := str_of "S" ++ format_03d i.

(** [frame['Sample_ID'] = [f"S{i:03d}" for i in range(start, start + len(frame))]],
    on a frame whose [code] and [comment] columns were set to [None]. *)
Definition assign_ids (start : nat) (rows : list Row) : list Sample :=
  map (fun ir => {| Sample_ID := sample_id (fst ir);
                    base := snd ir;
                    code := None;
                    comment := None |})
      (combine (seq start (length rows)) rows).

Definition is_empty {A} (rows : list A) : bool :=
  match rows with [] => true | _ :: _ => false end.

(** [Series.str]: the accessor is refused, with [AttributeError], on a
    column that holds no text; pandas stores such a column as numbers.
    A selection of rows keeps the type of the table's column, so what
    counts is the column of the whole table. *)
Definition is_text (c : cell) : bool :=
  match c with Some _ => true | None => false end.

Definition str_accessor (column : list cell) : result unit :=
  match column with
  | [] => Ok tt
  | _ :: _ =>
      if existsb is_text column then Ok tt else Raise AttributeError
  end.

(** The loop over the models, with the two lists of per-model frames
    it appends to. *)
Fixpoint sampling_loop (rng : RandomState) (rows : list Row)
    (models : list cell) (true_samples false_samples : list (list Row))
  : result (list (list Row) * list (list Row)) :=
  match models with
  | [] => Ok (true_samples, false_samples)
  | model :: rest =>
      let subset := filter (fun r => series_eq (Model r) model) rows in
      let correct_answers :=
        filter (fun r => Bool.eqb (Is_Correct r) true) subset in
      true_samples' <-
        (if (0 <? length correct_answers)%nat
         then s <- sample rng correct_answers
                     (Nat.min 30 (length correct_answers)) 1 ;;
              Ok (true_samples ++ [s])
         else Ok true_samples) ;;
      _ <- str_accessor (map Model_Answer rows) ;;
      let incorrect_answers :=
        filter (fun r => Bool.eqb (Is_Correct r) false
                         && negb (contains_na_false skip_marker (Model_Answer r)))
               subset in
      let false_samples' :=
        if (0 <? length incorrect_answers)%nat
        then false_samples ++ [incorrect_answers]
        else false_samples in
      sampling_loop rng rows rest true_samples' false_samples'
  end.

Definition create_samples (rng : RandomState) (df : DataFrame Row)
  : result (list Sample * list Sample) :=
  match df with
  | Blank => Raise KeyError
  | Table rows =>
      let models := unique (map Model rows) in
      samples <- sampling_loop rng rows models [] [] ;;
      let true_samples_df := concat_or_blank (fst samples) in
      let false_samples_df := concat_or_blank (snd samples) in
      true_sorted <- sort_values true_samples_df ;;
      false_sorted <- sort_values false_samples_df ;;
      let true_samples_df :=
        if negb (is_empty true_sorted) then assign_ids 1 true_sorted else [] in
      let false_samples_df :=
        if negb (is_empty false_sorted)
        then assign_ids (length true_samples_df + 1) false_sorted
        else [] in
      Ok (true_samples_df, false_samples_df)
  end.

(* ================================================================== *)
(** ** Reliability subset and rater batches *)

(** [samples.sample(n=30, random_state=1)] and the column selection. *)
Definition reliability_cell (rng : RandomState) (samples : list Sample)
  : result (list Rater.row) :=
  s <- sample rng samples 30 1 ;;
  Ok (map rater_columns s).

(** [samples[~samples['Sample_ID'].isin(reliability['Sample_ID'])]] *)
Definition carve_out (samples : list Sample) (reliability : list Rater.row)
  : list Sample :=
  filter (fun s => negb (isin (Sample_ID s)
                              (map Rater.Sample_ID reliability)))
         samples.

(** [rater.sample(frac=1, random_state=77).reset_index(drop=True)] and
    the column selection. *)
Definition shuffle_cell (rng : RandomState) (rater : list Sample)
  : result (list Rater.row) :=
  s <- sample_all rng rater 77 ;;
  Ok (map rater_columns s).

Definition batch_size : nat := 100.

(** The export loop: the frames written to
    [subsample_..._batch1.csv], [..._batch2.csv], ... in that order. *)
Definition export_batches (rater : list Rater.row) : list (list Rater.row) :=
  let num_batches := (length rater / batch_size + 1)%nat in
  map (fun i =>
         let start_idx := (i * batch_size)%nat in
         let end_idx := (start_idx + batch_size)%nat in
         iloc rater start_idx end_idx)
      (seq 0 num_batches).

(** The four cells in sequence, for one of the two sample sets: the
    reliability file and the batch files. *)
Definition rater_files (rng : RandomState) (samples : list Sample)
  : result (list Rater.row * list (list Rater.row)) :=
  reliability <- reliability_cell rng samples ;;
  let samples_rater := carve_out samples reliability in
  shuffled <- shuffle_cell rng samples_rater ;;
  Ok (reliability, export_batches shuffled).

(* ================================================================== *)
(** ** Label reconciliation *)

(** A row of a labelled file: the identifier and one column per rater.
    The remaining text columns play no part in the reconciliation. *)
Module Labeled.
Record row := {
  Sample_ID : cell;
  Sitao : cell;
  Cao : cell;
  Miao : cell;
  Zia : cell
}.
End Labeled.

Definition label_correct (row : Labeled.row) : cell :=
  if notna (Labeled.Zia row) then Labeled.Zia row else Labeled.Miao row.

Definition label_incorrect (row : Labeled.row) : cell :=
  if notna (Labeled.Sitao row) then Labeled.Sitao row
  else if notna (Labeled.Cao row) then Labeled.Cao row
  else if notna (Labeled.Miao row) then Labeled.Miao row
  else Labeled.Zia row.

(** [frame['label'] = frame.apply(f, axis=1)]: each row with its label. *)
Definition add_label (f : Labeled.row -> cell) (frame : list Labeled.row)
  : list (Labeled.row * cell) :=
  map (fun row => (row, f row)) frame.

(** [frame[frame['label'].isna()]], the frame that is printed. *)
Definition missing_labels (frame : list (Labeled.row * cell))
  : list (Labeled.row * cell) :=
  filter (fun rl => isna (snd rl)) frame.

(** The reconciliation cell: the two labelled tables and the two
    printed frames. *)
Definition reconcile (labeled_correct labeled_incorrect : list Labeled.row)
  : (list (Labeled.row * cell) * list (Labeled.row * cell))
    * (list (Labeled.row * cell) * list (Labeled.row * cell)) :=
  let lc := add_label label_correct labeled_correct in
  let li := add_label label_incorrect labeled_incorrect in
  ((lc, li), (missing_labels lc, missing_labels li)).

(* ================================================================== *)
(** ** Notions used to state the properties *)

(** The priority orders of the raters, as the spec describes the
    reconciliation. *)
Definition correct_priority (row : Labeled.row) : list cell :=
  [Labeled.Zia row; Labeled.Miao row].

Definition incorrect_priority (row : Labeled.row) : list cell :=
  [Labeled.Sitao row; Labeled.Cao row; Labeled.Miao row; Labeled.Zia row].

(** The first non-missing value of a list of rater values, missing if
    there is none. *)
Fixpoint first_non_missing (values : list cell) : cell :=
  match values with
  | [] => None
  | Some v :: _ => Some v
  | None :: rest => first_non_missing rest
  end.

Definition all_missing (values : list cell) : bool := forallb isna values.

(** [t] is [s] with some characters dropped, the others in their
    original order. *)
Inductive subsequence {A} : list A -> list A -> Prop :=
| sub_nil : subsequence [] []
| sub_drop : forall c t s, subsequence t s -> subsequence t (c :: s)
| sub_keep : forall c t s, subsequence t s -> subsequence (c :: t) (c :: s).

(** The number an identifier [S<digits>] carries. *)
Fixpoint ascii_digits_value (acc : nat) (s : pystr) : option nat :=
  match s with
  | [] => Some acc
  | c :: t =>
      if ascii_digit c
      then ascii_digits_value (10 * acc + N.to_nat (c - 48)) t
      else None
  end.

Definition sample_number (id : pystr) : option nat :=
  match id with
  | 83 :: (_ :: _) as digits => ascii_digits_value 0 digits
  | _ => None
  end.

(** The sort key of [create_samples] as a relation. *)
Definition row_le (a b : Row) : Prop := row_leb a b = true.

(** Identifiers compared by the numbers they carry. *)
Definition id_lt (a b : pystr) : Prop :=
  match sample_number a, sample_number b with
  | Some x, Some y => (x < y)%nat
  | _, _ => False
  end.

(** The order of strings, in words: a string comes before the strings
    it is a proper beginning of; otherwise the first place where two
    strings differ decides, by the code points there. *)
Inductive str_lt : pystr -> pystr -> Prop :=
| str_lt_prefix (c : N) (b : pystr) : str_lt [] (c :: b)
| str_lt_first (x y : N) (a b : pystr) : (x < y)%N -> str_lt (x :: a) (y :: b)
| str_lt_rest (x : N) (a b : pystr) : str_lt a b -> str_lt (x :: a) (x :: b).

(** Two records in the order "model ascending, exam type ascending,
    question type descending", written without the comparison the code
    sorts with.  Both records name a model. *)
Definition key_ordered (a b : Row) : Prop :=
  exists ma mb,
    Model a = Some ma /\ Model b = Some mb /\
    (str_lt ma mb \/
     ma = mb /\
     (str_lt (Exam_Type a) (Exam_Type b) \/
      Exam_Type a = Exam_Type b /\
      (str_lt (Question_Type b) (Question_Type a) \/
       Question_Type a = Question_Type b))).

Definition letters_only {U : UnicodeData} (c : cell) : Prop :=
  match c with
  | Some s => Forall (fun ch => isalpha ch = true) s
  | None => True
  end.

Definition uppercase_only {U : UnicodeData} (c : cell) : Prop :=
  match c with
  | Some s => Forall (fun ch => isupper ch = true) s
  | None => True
  end.

(** What a loaded record owes to the raw row [raw] it was read from. *)
Definition cleaned_from {U : UnicodeData} (raw : Raw.row) (r : Row) : Prop :=
  Model_Answer r = clean_answer (Raw.Model_Answer raw) /\
  Correct_Answer r = clean_answer (Raw.Correct_Answer raw) /\
  Is_Correct r = series_eq (clean_answer (Raw.Model_Answer raw))
                           (clean_answer (Raw.Correct_Answer raw)).

(** The rows of a table that belong to model [m]. *)
Definition of_model (m : pystr) (rows : list Row) : list Row :=
  filter (fun r => series_eq (Model r) (Some m)) rows.

(** A confidence cell that [float] refuses with [OverflowError]. *)
Definition overflows (x : conf_cell) : bool :=
  match x with
  | CInt z => (float_overflow <=? Z.abs z)%Z
  | _ => false
  end.

Definition float_nonneg (v : pyfloat) : Prop :=
  match v with
  | Finite q => (0 <= q)%Q
  | Infinite negative => negative = false
  end.

(** The characters [clean_confidence_value] keeps of a string. *)
Definition numeric_part {U : UnicodeData} (s : pystr) : pystr :=
  filter (fun c => isdigit c || (c =? dot)) s.

(** [str(i)] for a natural number. *)
Definition str_of_nat (i : nat) : pystr := uint_chars (Nat.to_uint i).

(* ------------------------------------------------------------------ *)
(** *** Generators and inputs to run the definitions on *)

Definition reversing_state : RandomState :=
  {| permutation := fun _ n => rev (seq 0 n);
     permutation_spec := fun _ n => Permutation_sym (Permutation_rev (seq 0 n)) |}.

Definition raw_row (model model_answer correct_answer : string) : Raw.row :=
  {| Raw.Question_ID := None;
     Raw.Question := None;
     Raw.Selections := None;
     Raw.Correct_Answer := Some (str_of correct_answer);
     Raw.Model_Answer := Some (str_of model_answer);
     Raw.Model_Confidence := CStr (str_of "85%");
     Raw.Official_Explanation := None;
     Raw.Model_Explanation := None;
     Raw.Model := Some (str_of model) |}.

Definition result_row (model exam_type question_type : string)
    (model_answer : pystr) (correct_answer : string) : Row :=
  {| Question_ID := None;
     Question := None;
     Selections := None;
     Correct_Answer := Some (str_of correct_answer);
     Model_Answer := Some model_answer;
     Model_Confidence := None;
     Official_Explanation := None;
     Model_Explanation := None;
     Model := Some (str_of model);
     Condition := str_of "condition1";
     Exam_Type := str_of exam_type;
     Question_Type := str_of question_type;
     Is_Correct := str_eqb model_answer (str_of correct_answer) |}.

(** [r] with the confidence [q]. *)
Definition with_confidence (q : Q) (r : Row) : Row :=
  {| Question_ID := Question_ID r;
     Question := Question r;
     Selections := Selections r;
     Correct_Answer := Correct_Answer r;
     Model_Answer := Model_Answer r;
     Model_Confidence := Some (Finite q);
     Official_Explanation := Official_Explanation r;
     Model_Explanation := Model_Explanation r;
     Model := Model r;
     Condition := Condition r;
     Exam_Type := Exam_Type r;
     Question_Type := Question_Type r;
     Is_Correct := Is_Correct r |}.

Definition example_file : CsvFile :=
  {| path := str_of "data/results_policy_qwen_condition_1_single.csv";
     contents := [raw_row "qwen" "a" "A"; raw_row "qwen" "A, B" "AB"] |}.

(** Two models; [qwen] has two correct answers, one wrong answer and
    one declined answer, [gpt] one correct and one wrong answer. *)
Definition example_table : DataFrame Row :=
  Table [ result_row "qwen" "policy" "single" (str_of "A") "A";
          result_row "gpt" "policy" "single" (str_of "B") "B";
          result_row "qwen" "policy" "multi" (str_of "AB") "AC";
          result_row "qwen" "comprehensive" "single" skip_marker "C";
          result_row "gpt" "comprehensive" "multi" (str_of "D") "BD";
          result_row "qwen" "comprehensive" "single" (str_of "C") "C" ].

(** [qwen] has 35 correct answers and one wrong answer, [gpt] has 5
    correct answers. *)
Definition sized_table : DataFrame Row :=
  Table (repeat (result_row "qwen" "policy" "single" (str_of "A") "A") 35
         ++ repeat (result_row "gpt" "policy" "multi" (str_of "BD") "BD") 5
         ++ [result_row "qwen" "comprehensive" "single" (str_of "B") "C"]).

(** One correct answer and 999 incorrect answers of one model. *)
Definition thousand_table : DataFrame Row :=
  Table (result_row "qwen" "policy" "single" (str_of "A") "A"
         :: repeat (result_row "qwen" "policy" "single" (str_of "B") "A") 999).

(** [n] samples numbered from 1. *)
Definition example_samples (n : nat) : list Sample :=
  assign_ids 1 (repeat (result_row "qwen" "policy" "single" (str_of "A") "A") n).

Definition labeled_row (sitao cao miao zia : cell) : Labeled.row :=
  {| Labeled.Sample_ID := Some (sample_id 1);
     Labeled.Sitao := sitao;
     Labeled.Cao := cao;
     Labeled.Miao := miao;
     Labeled.Zia := zia |}.

(* ------------------------------------------------------------------ *)
(** *** The cells in sequence *)

(** The notebook from loading to the rater files, each cell fed with
    what the one before left: the two sample tables, and for each of
    them the reliability file and the batch files. *)
Definition notebook {U : UnicodeData} (rng : RandomState)
    (csv_files : list CsvFile)
  : result ((list Sample * list Sample)
            * (list Rater.row * list (list Rater.row))
            * (list Rater.row * list (list Rater.row))) :=
  df <- load_and_process_files csv_files ;;
  samples <- create_samples rng df ;;
  true_files <- rater_files rng (fst samples) ;;
  false_files <- rater_files rng (snd samples) ;;
  Ok (samples, true_files, false_files).

(** A results file whose only answer is correct. *)
Definition one_correct_file : CsvFile :=
  {| path := str_of "data/results_policy_qwen_condition_1_single.csv";
     contents := [raw_row "qwen" "B" "B"] |}.

(* ------------------------------------------------------------------ *)
(** *** What the loop of [create_samples] collects *)

Definition model_rows (model : cell) (rows : list Row) : list Row :=
  filter (fun r => series_eq (Model r) model) rows.

Definition correct_rows (rows : list Row) : list Row :=
  filter (fun r => Bool.eqb (Is_Correct r) true) rows.

Definition incorrect_rows (rows : list Row) : list Row :=
  filter (fun r => Bool.eqb (Is_Correct r) false
                   && negb (contains_na_false skip_marker (Model_Answer r)))
         rows.

(** The frame sampled from the correct answers of one model. *)
Definition true_frame (rng : RandomState) (rows : list Row) (model : cell)
  : list Row :=
  let c := correct_rows (model_rows model rows) in
  take c (firstn (Nat.min 30 (length c)) (permutation rng 1 (length c))).

(** The frames appended to [true_samples] and to [false_samples]. *)
Definition true_frames (rng : RandomState) (rows : list Row)
    (models : list cell) : list (list Row) :=
  flat_map (fun model =>
              if (0 <? length (correct_rows (model_rows model rows)))%nat
              then [true_frame rng rows model] else [])
           models.

Definition false_frames (rows : list Row) (models : list cell)
  : list (list Row) :=
  flat_map (fun model =>
              if (0 <? length (incorrect_rows (model_rows model rows)))%nat
              then [incorrect_rows (model_rows model rows)] else [])
           models.

(* ------------------------------------------------------------------ *)
(** *** Three-way comparisons that order their arguments *)

Record CompareLaws {A} (cmp : A -> A -> comparison) : Prop := {
  cmp_antisym : forall a b, cmp b a = CompOpp (cmp a b);
  cmp_eq_compat : forall a b c, cmp a b = Eq -> cmp a c = cmp b c;
  cmp_lt_trans : forall a b c, cmp a b = Lt -> cmp b c = Lt -> cmp a c = Lt
}.

(** Compare by [c1], then by [c2]. *)
Definition lex {A} (c1 c2 : A -> A -> comparison) (a b : A) : comparison :=
  match c1 a b with
  | Eq => c2 a b
  | c => c
  end.

Definition on {A B} (f : A -> B) (cmp : B -> B -> comparison) (a b : A)
  : comparison := cmp (f a) (f b).

Definition descending {A} (cmp : A -> A -> comparison) (a b : A)
  : comparison := cmp b a.

Definition leb_of {A} (cmp : A -> A -> comparison) (a b : A) : bool :=
  match cmp a b with
  | Gt => false
  | _ => true
  end.

(** A results file with 35 correct and 31 incorrect answers. *)
Definition large_file : CsvFile :=
  {| path := str_of "data/results_policy_qwen_condition_1_single.csv";
     contents := repeat (raw_row "qwen" "A" "A") 35
                 ++ repeat (raw_row "qwen" "B" "A") 31 |}.

(* ------------------------------------------------------------------ *)
(** *** File names *)

(** The parts of a file's name, as the loop of [load_and_process_files]
    computes them. *)
Definition name_parts (file : CsvFile) : list pystr :=
  str_split underscore (str_remove (str_of ".csv") (basename (path file))).

(** The name has six parts and its first part [condition] is the
    last one. *)
Definition condition_is_last_part (file : CsvFile) : bool :=
  (length (name_parts file) =? 6)%nat &&
  match list_index (str_of "condition") (name_parts file) with
  | Ok 5%nat => true
  | _ => false
  end.

(** The name passes the checks of the loop: it has six parts, and the
    part after its first part [condition] is [1]. *)
Definition is_condition1_file (file : CsvFile) : bool :=
  (length (name_parts file) =? 6)%nat &&
  match list_index (str_of "condition") (name_parts file) with
  | Ok i =>
      match nth_error (name_parts file) (i + 1) with
      | Some num => str_eqb num (str_of "1")
      | None => false
      end
  | Raise _ => false
  end.

(** The file is read, and one of its confidence cells is an integer
    too large for a double. *)
Definition overflowing (file : CsvFile) : bool :=
  is_condition1_file file &&
  existsb (fun r => overflows (Raw.Model_Confidence r)) (contents file).

(** A results file whose confidence cell holds the integer 10^400. *)
Definition huge_confidence_file : CsvFile :=
  {| path := str_of "data/results_policy_qwen_condition_1_single.csv";
     contents :=
       [{| Raw.Question_ID := None;
           Raw.Question := None;
           Raw.Selections := None;
           Raw.Correct_Answer := Some (str_of "A");
           Raw.Model_Answer := Some (str_of "A");
           Raw.Model_Confidence := CInt (10 ^ 400);
           Raw.Official_Explanation := None;
           Raw.Model_Explanation := None;
           Raw.Model := Some (str_of "qwen") |}] |}.

(** The columns of a row that loading does not touch. *)
Definition untouched_raw (r : Raw.row) : list cell :=
  [Raw.Question_ID r; Raw.Question r; Raw.Selections r;
   Raw.Official_Explanation r; Raw.Model_Explanation r; Raw.Model r].

Definition untouched (r : Row) : list cell :=
  [Question_ID r; Question r; Selections r;
   Official_Explanation r; Model_Explanation r; Model r].

(* ------------------------------------------------------------------ *)
(** *** The cells after labelling *)

(** A labelled row after the merge: the row, its reconciled label, and
    the two columns looked up in the sample table, missing where no
    sample has the row's identifier.  The other columns of the labelled
    file are carried along untouched. *)
Module Merged.
Record row := {
  labeled : Labeled.row;
  label : cell;
  Exam_Type : cell;
  Question_Type : cell
}.
End Merged.

(** The samples a labelled row's identifier selects. *)
Definition matching_samples (id : cell) (samples : list Sample) : list Sample :=
  filter (fun s => series_eq id (Some (Sample_ID s))) samples.

(** The rows of a left merge on [Sample_ID]: the rows of [frame] in
    order, each once per sample with its identifier, and once with
    missing values when there is none. *)
Definition merge_rows (frame : list (Labeled.row * cell))
    (samples : list Sample) : list Merged.row :=
  flat_map
    (fun rl =>
       match matching_samples (Labeled.Sample_ID (fst rl)) samples with
       | [] => [ {| Merged.labeled := fst rl;
                    Merged.label := snd rl;
                    Merged.Exam_Type := None;
                    Merged.Question_Type := None |} ]
       | matches =>
           map (fun s => {| Merged.labeled := fst rl;
                            Merged.label := snd rl;
                            Merged.Exam_Type := Some (Exam_Type (base s));
                            Merged.Question_Type :=
                              Some (Question_Type (base s)) |})
               matches
       end)
    frame.

(** The two key columns cannot be merged: both tables have rows, and
    the [Sample_ID] column of [frame] holds no text, so that pandas
    stores it as numbers while the samples' identifiers are text. *)
Definition key_mismatch (frame : list (Labeled.row * cell))
    (samples : list Sample) : bool :=
  negb (is_empty frame) && negb (is_empty samples) &&
  negb (existsb (fun rl => is_text (Labeled.Sample_ID (fst rl))) frame).

(** [frame.merge(samples[['Sample_ID', 'Exam_Type', 'Question_Type']],
    on='Sample_ID', how='left')] and the column selection.  The merge
    raises [ValueError] on key columns of different types. *)
Definition merge_left (frame : list (Labeled.row * cell))
    (samples : list Sample) : result (list Merged.row) :=
  if key_mismatch frame samples then Raise ValueError
  else Ok (merge_rows frame samples).

(** A row of the combined table. *)
Module Combined.
Record row := {
  Sample_ID : cell;
  label : cell;
  Exam_Type : cell;
  Question_Type : cell;
  Is_Correct : bool
}.
End Combined.

Definition flagged (is_correct : bool) (m : Merged.row) : Combined.row :=
  {| Combined.Sample_ID := Labeled.Sample_ID (Merged.labeled m);
     Combined.label := Merged.label m;
     Combined.Exam_Type := Merged.Exam_Type m;
     Combined.Question_Type := Merged.Question_Type m;
     Combined.Is_Correct := is_correct |}.

(** [labeled_correct['Is_Correct'] = True], [labeled_incorrect['Is_Correct'] = False],
    [pd.concat] and the column selection. *)
Definition combine (labeled_correct labeled_incorrect : list Merged.row)
  : list Combined.row :=
  map (flagged true) labeled_correct ++ map (flagged false) labeled_incorrect.

(** The cells from the labelled files to the combined table:
    [labeled_dfs[0]] and [labeled_dfs[1]], the reconciliation, the two
    merges and the concatenation. *)
Definition label_cells (labeled_dfs : list (list Labeled.row))
    (true_samples false_samples : list Sample)
  : result (list Merged.row * list Merged.row * list Combined.row) :=
  labeled_correct <- getitem labeled_dfs 0 ;;
  labeled_incorrect <- getitem labeled_dfs 1 ;;
  let labels := fst (reconcile labeled_correct labeled_incorrect) in
  merged_correct <- merge_left (fst labels) true_samples ;;
  merged_incorrect <- merge_left (snd labels) false_samples ;;
  Ok (merged_correct, merged_incorrect,
      combine merged_correct merged_incorrect).

(** A labelled row for a sample, as a rater file returns it. *)
Definition labeled_for (zia : cell) (s : Sample) : Labeled.row :=
  {| Labeled.Sample_ID := Some (Sample_ID s);
     Labeled.Sitao := None;
     Labeled.Cao := None;
     Labeled.Miao := None;
     Labeled.Zia := zia |}.

(* ================================================================== *)
(** * Properties *)

(** ** Strings and results *)

Lemma str_eqb_eq (a b : pystr) : str_eqb a b = true <-> a = b.
Proof.
  unfold str_eqb. destruct (list_eq_dec N.eq_dec a b); split; congruence.
Qed.

Lemma str_eqb_refl (a : pystr) : str_eqb a a = true.
Proof. now apply str_eqb_eq. Qed.

Lemma str_eqb_neq (a b : pystr) : str_eqb a b = false <-> a <> b.
Proof.
  unfold str_eqb. destruct (list_eq_dec N.eq_dec a b); split; congruence.
Qed.

Lemma series_eq_some (c : cell) (m : pystr) :
  series_eq c (Some m) = true <-> c = Some m.
Proof.
  destruct c as [x|]; simpl.
  - rewrite str_eqb_eq. split; congruence.
  - split; discriminate.
Qed.

Lemma isin_In (x : pystr) (values : list pystr) :
  isin x values = true <-> In x values.
Proof.
  unfold isin. rewrite existsb_exists. split.
  - intros (y & Hy & E). apply str_eqb_eq in E. now subst.
  - intros H. exists x. split; [assumption | apply str_eqb_refl].
Qed.

Lemma str_join_singletons (s : pystr) :
  str_join (map (fun c => [c]) s) = s.
Proof.
  unfold str_join. induction s as [|c s IH]; simpl; [reflexivity|].
  now rewrite IH.
Qed.

Lemma bind_ok {A B} (m : result A) (k : A -> result B) (b : B) :
  bind m k = Ok b -> exists a, m = Ok a /\ k a = Ok b.
Proof. destruct m as [a|e]; simpl; [eauto | discriminate]. Qed.

Ltac bind_inv H :=
  let a := fresh "a" in
  let E := fresh "E" in
  apply bind_ok in H; destruct H as (a & E & H).

(** ** Subsequences and filters *)

Lemma subsequence_filter {A} (P : A -> bool) (s : list A) :
  subsequence (filter P s) s.
Proof.
  induction s as [|c s IH]; simpl.
  - constructor.
  - destruct (P c); now constructor.
Qed.

Lemma subsequence_into_filter {A} (P : A -> bool) (t s : list A) :
  subsequence t s ->
  Forall (fun c => P c = true) t ->
  subsequence t (filter P s).
Proof.
  induction 1 as [|c t s _ IH|c t s _ IH]; intros HP; simpl.
  - constructor.
  - destruct (P c); [apply sub_drop|]; now apply IH.
  - inversion HP as [|? ? Hc Ht]; subst. rewrite Hc. apply sub_keep. now apply IH.
Qed.

Lemma Forall_filter_true {A} (P : A -> bool) (s : list A) :
  Forall (fun c => P c = true) (filter P s).
Proof.
  apply Forall_forall. intros c Hc. now apply filter_In in Hc.
Qed.

(** ** [clean_answer] *)

Section CleaningProperties.
Context {U : UnicodeData}.

Lemma clean_answer_some (s : pystr) :
  clean_answer (Some s) = Some (filter isalpha s).
Proof. simpl. now rewrite str_join_singletons. Qed.

Lemma clean_answer_letters (c : cell) : letters_only (clean_answer c).
Proof.
  destruct c as [s|]; [|exact I].
  rewrite clean_answer_some. apply Forall_filter_true.
Qed.

(** C8. [clean_answer] on a string returns its letters and nothing
    else, in their original order: the result consists of letters, is
    the input with some characters dropped, and every letters-only
    part of the input is a part of the result.  ["A, B, C"] gives
    ["ABC"], and a missing input is returned unchanged. *)
Theorem clean_answer_keeps_exactly_the_letters :
  (forall s : pystr,
     exists t,
       clean_answer (Some s) = Some t /\
       Forall (fun c => isalpha c = true) t /\
       subsequence t s /\
       (forall t', subsequence t' s ->
                   Forall (fun c => isalpha c = true) t' ->
                   subsequence t' t)) /\
  clean_answer (Some (str_of "A, B, C")) = Some (str_of "ABC") /\
  clean_answer None = None.
Proof.
  split; [|split; reflexivity].
  intros s. exists (filter isalpha s). split; [apply clean_answer_some|].
  split; [apply Forall_filter_true|].
  split; [apply subsequence_filter|].
  intros t' Hsub Hall. now apply subsequence_into_filter.
Qed.

(** ** [clean_confidence_value] *)

Lemma float_of_str_raises (s : pystr) (e : exn) :
  float_of_str s = Raise e -> e = ValueError.
Proof.
  unfold float_of_str.
  destruct (str_split dot s) as [|ip [|fp [|x r]]]; try congruence.
  - destruct ip; [congruence|].
    destruct (digits_value 0 (n :: ip)); congruence.
  - destruct (ip ++ fp); [congruence|].
    destruct (digits_value 0 (n :: l)); congruence.
Qed.

Lemma clean_confidence_value_str (s : pystr) :
  clean_confidence_value (CStr s) =
  Ok (match float_of_str (numeric_part s) with
      | Ok q => Some q
      | Raise _ => None
      end).
Proof.
  unfold clean_confidence_value, numeric_part. rewrite str_join_singletons.
  simpl. destruct (float_of_str _) as [q|e] eqn:E; simpl; [reflexivity|].
  apply float_of_str_raises in E. now subst.
Qed.

Lemma clean_confidence_value_int (z : Z) :
  clean_confidence_value (CInt z) =
  if (float_overflow <=? Z.abs z)%Z then Raise OverflowError
  else Ok (Some (Finite (z # 1))).
Proof.
  unfold clean_confidence_value, float_of_cell.
  now destruct (float_overflow <=? Z.abs z)%Z.
Qed.

(** The only way to an exception is a Python integer too large for a
    double. *)
Lemma clean_confidence_value_cases (x : conf_cell) :
  (exists v, clean_confidence_value x = Ok v /\ overflows x = false) \/
  (clean_confidence_value x = Raise OverflowError /\ overflows x = true).
Proof.
  destruct x as [|s|v|z|b].
  - left. now exists None.
  - left. rewrite clean_confidence_value_str. eauto.
  - left. now exists (Some v).
  - rewrite clean_confidence_value_int. unfold overflows.
    destruct (float_overflow <=? Z.abs z)%Z; [right|left]; eauto.
  - left. simpl. eauto.
Qed.
End CleaningProperties.

(** *** Decimal text of a natural number *)

Lemma to_uint_nonnil (n : nat) : Nat.to_uint n <> Decimal.Nil.
Proof.
  rewrite <- (Unsigned.of_to n) at 1. rewrite Unsigned.to_of.
  apply DecimalFacts.unorm_nonnil.
Qed.

Lemma uint_chars_nonempty (u : Decimal.uint) :
  u <> Decimal.Nil -> uint_chars u <> [].
Proof. destruct u; simpl; congruence. Qed.

Lemma uint_chars_digits (u : Decimal.uint) :
  Forall (fun c => ascii_digit c = true) (uint_chars u).
Proof. induction u; simpl; constructor; auto. Qed.

Lemma str_of_nat_nonempty (n : nat) : str_of_nat n <> [].
Proof. apply uint_chars_nonempty, to_uint_nonnil. Qed.

Lemma str_split_without_sep (sep : N) (s : pystr) :
  ~ In sep s -> str_split sep s = [s].
Proof.
  induction s as [|c s IH]; simpl; intros H; [reflexivity|].
  destruct (N.eqb_spec c sep) as [->|_]; [tauto|].
  rewrite IH by tauto. reflexivity.
Qed.

Lemma filter_all {A} (P : A -> bool) (l : list A) :
  Forall (fun c => P c = true) l -> filter P l = l.
Proof.
  induction 1 as [|c l Hc _ IH]; simpl; [reflexivity|].
  now rewrite Hc, IH.
Qed.

Lemma ascii_digit_below_128 (c : N) : ascii_digit c = true -> (c <? 128) = true.
Proof.
  unfold ascii_digit, between. intros H.
  apply andb_true_iff in H. destruct H as [_ H]. apply N.leb_le in H.
  apply N.ltb_lt. lia.
Qed.

Lemma ascii_digit_not_dot (c : N) : ascii_digit c = true -> c <> dot.
Proof. intros H ->. discriminate H. Qed.

Section ConfidenceProperties.
Context {U : UnicodeData}.

Lemma ascii_digit_isdigit (c : N) : ascii_digit c = true -> isdigit c = true.
Proof.
  intros H. unfold isdigit. now rewrite (ascii_digit_below_128 _ H).
Qed.

Lemma digits_value_step (k : nat) (t : pystr) (acc : N) :
  (k <= 9)%nat ->
  digits_value acc (digit_char k :: t) = digits_value (10 * acc + N.of_nat k) t.
Proof.
  intros Hk. do 10 (destruct k as [|k]; [reflexivity|]). lia.
Qed.

Lemma digits_value_uint (u : Decimal.uint) (acc : N) :
  digits_value acc (uint_chars u) =
  Some (N.of_nat (Nat.of_uint_acc u (N.to_nat acc))).
Proof.
  revert acc.
  induction u as [|u IH|u IH|u IH|u IH|u IH|u IH|u IH|u IH|u IH|u IH];
    intros acc; cbn [uint_chars Nat.of_uint_acc];
    [ cbn [digits_value]; now rewrite N2Nat.id
    | rewrite digits_value_step by lia; rewrite IH; do 3 f_equal;
      rewrite Nat.tail_mul_spec; lia .. ].
Qed.

Lemma float_of_str_nat (n : nat) :
  float_of_str (str_of_nat n) = Ok (float_of_decimal (N.of_nat n) 0).
Proof.
  unfold float_of_str, str_of_nat.
  rewrite str_split_without_sep.
  - pose proof (str_of_nat_nonempty n) as Hne. unfold str_of_nat in Hne.
    destruct (uint_chars (Nat.to_uint n)) as [|c t] eqn:E; [congruence|].
    rewrite <- E, digits_value_uint. simpl N.to_nat.
    fold (Nat.of_uint (Nat.to_uint n)). now rewrite Unsigned.of_to.
  - intros Hin. pose proof (uint_chars_digits (Nat.to_uint n)) as Hd.
    rewrite Forall_forall in Hd. now apply (ascii_digit_not_dot (Hd _ Hin)).
Qed.

Lemma numeric_part_percent (n : nat) :
  numeric_part (str_of_nat n ++ str_of "%") = str_of_nat n.
Proof.
  unfold numeric_part. rewrite filter_app. simpl.
  rewrite app_nil_r. apply filter_all.
  eapply Forall_impl; [|apply uint_chars_digits].
  intros c Hc. simpl. now rewrite (ascii_digit_isdigit _ Hc).
Qed.

Lemma digits_value_app (acc : N) (a b : pystr) :
  digits_value acc (a ++ b) =
  match digits_value acc a with
  | Some v => digits_value v b
  | None => None
  end.
Proof.
  revert acc. induction a as [|c a IH]; intros acc; simpl; [reflexivity|].
  destruct (decimal_value c); [apply IH|reflexivity].
Qed.

Lemma uint_chars_length (u : Decimal.uint) :
  length (uint_chars u) = Unsigned.usize u.
Proof. induction u; simpl; congruence. Qed.

Lemma of_uint_acc_shift (u : Decimal.uint) (acc : nat) :
  Nat.of_uint_acc u acc =
  (acc * 10 ^ length (uint_chars u) + Nat.of_uint u)%nat.
Proof.
  unfold Nat.of_uint. rewrite (Unsigned.of_uint_acc_spec acc u).
  rewrite (Unsigned.of_uint_acc_spec 0 u), uint_chars_length. lia.
Qed.

Lemma str_split_at_sep (sep : N) (a b : pystr) :
  ~ In sep a -> ~ In sep b -> str_split sep (a ++ sep :: b) = [a; b].
Proof.
  intros Ha Hb. induction a as [|c a IH]; simpl.
  - rewrite N.eqb_refl. now rewrite str_split_without_sep.
  - destruct (N.eqb_spec c sep) as [->|_]; [simpl in Ha; tauto|].
    rewrite IH by (simpl in Ha; tauto). reflexivity.
Qed.

Lemma str_of_nat_no_dot (n : nat) : ~ In dot (str_of_nat n).
Proof.
  intros Hin. pose proof (uint_chars_digits (Nat.to_uint n)) as Hd.
  rewrite Forall_forall in Hd. now apply (ascii_digit_not_dot (Hd _ Hin)).
Qed.

(** [float] of the text [a.b]. *)
Lemma float_of_str_decimal (a b : nat) :
  let k := length (str_of_nat b) in
  float_of_str (str_of_nat a ++ dot :: str_of_nat b) =
  Ok (float_of_decimal (N.of_nat (a * 10 ^ k + b)) k).
Proof.
  cbv zeta. unfold float_of_str.
  rewrite str_split_at_sep by apply str_of_nat_no_dot.
  destruct (str_of_nat a ++ str_of_nat b) as [|c t] eqn:E.
  - apply app_eq_nil in E. destruct E as [E _].
    now apply str_of_nat_nonempty in E.
  - rewrite <- E. unfold str_of_nat.
    rewrite digits_value_app, !digits_value_uint. simpl N.to_nat.
    rewrite Nat2N.id, of_uint_acc_shift.
    fold (Nat.of_uint (Nat.to_uint a)). now rewrite !Unsigned.of_to.
Qed.

Lemma numeric_part_decimal_percent (a b : nat) :
  numeric_part (str_of_nat a ++ dot :: str_of_nat b ++ str_of "%") =
  str_of_nat a ++ dot :: str_of_nat b.
Proof.
  unfold numeric_part.
  assert (forall n, filter (fun c => isdigit c || (c =? dot)) (str_of_nat n)
                    = str_of_nat n) as Hd.
  { intros n. apply filter_all.
    eapply Forall_impl; [|apply uint_chars_digits].
    intros c Hc. simpl. now rewrite (ascii_digit_isdigit _ Hc). }
  rewrite filter_app, Hd. cbn [filter]. rewrite N.eqb_refl, orb_true_r.
  rewrite filter_app, Hd. simpl. now rewrite app_nil_r.
Qed.

(** C7. [clean_confidence_value] does not return for every input: on
    a Python integer too large for a double, such as [10 ** 400],
    [float] raises [OverflowError], which the function's
    [except (ValueError, TypeError)] does not catch.  This is the only
    way it raises: an integer raises exactly when its absolute value
    reaches [float_overflow], and every other value is handled.  On a
    string it returns what [float] reads in the digits and points of
    the string, and a missing value when [float] rejects them.  The
    decimal text of a number followed by a percent sign gives that
    number, with or without a fraction: ["85%"] gives 85.0 and
    ["85.5%"] gives 85.5; ["abc"] gives a missing value; a text of 401
    digits gives infinity. *)
Theorem clean_confidence_value_raises_on_huge_integers :
  clean_confidence_value (CInt (10 ^ 400)) = Raise OverflowError /\
  (forall (x : conf_cell) (e : exn),
     clean_confidence_value x = Raise e ->
     e = OverflowError /\
     exists z : Z, x = CInt z /\ (float_overflow <= Z.abs z)%Z) /\
  (forall z : Z,
     (float_overflow <= Z.abs z)%Z ->
     clean_confidence_value (CInt z) = Raise OverflowError) /\
  (forall z : Z,
     (Z.abs z < float_overflow)%Z ->
     clean_confidence_value (CInt z) = Ok (Some (Finite (z # 1)))) /\
  (forall s : pystr,
     clean_confidence_value (CStr s) =
     Ok (match float_of_str (numeric_part s) with
         | Ok q => Some q
         | Raise _ => None
         end)) /\
  (forall n : nat,
     clean_confidence_value (CStr (str_of_nat n ++ str_of "%")) =
     Ok (Some (float_of_decimal (N.of_nat n) 0))) /\
  (forall a b : nat,
     let k := length (str_of_nat b) in
     clean_confidence_value
       (CStr (str_of_nat a ++ dot :: str_of_nat b ++ str_of "%")) =
     Ok (Some (float_of_decimal (N.of_nat (a * 10 ^ k + b)) k))) /\
  clean_confidence_value (CStr (str_of "85%")) = Ok (Some (Finite (85 # 1))) /\
  clean_confidence_value (CStr (str_of "85.5%")) =
  Ok (Some (Finite (855 # 10))) /\
  clean_confidence_value (CStr (str_of "abc")) = Ok None /\
  clean_confidence_value (CStr (str_of "1.2.3")) = Ok None /\
  clean_confidence_value (CStr (repeat 57%N 401)) =
  Ok (Some (Infinite false)) /\
  clean_confidence_value CMissing = Ok None.
Proof.
  split; [now vm_compute|].
  split.
  { intros x e H.
    destruct (clean_confidence_value_cases x) as [(v & Hv & _)|[Hr Ho]];
      [congruence|].
    split; [congruence|].
    destruct x as [|s|v|z|b]; try discriminate Ho.
    exists z. split; [reflexivity|]. now apply Z.leb_le. }
  split.
  { intros z Hz. rewrite clean_confidence_value_int.
    apply Z.leb_le in Hz. now rewrite Hz. }
  split.
  { intros z Hz. rewrite clean_confidence_value_int.
    apply Z.leb_gt in Hz. now rewrite Hz. }
  split; [apply clean_confidence_value_str|].
  split; [|split; [|repeat split; now vm_compute]].
  - intros n. rewrite clean_confidence_value_str, numeric_part_percent.
    now rewrite float_of_str_nat.
  - intros a b. cbv zeta.
    rewrite clean_confidence_value_str, numeric_part_decimal_percent.
    now rewrite float_of_str_decimal.
Qed.
End ConfidenceProperties.

(** ** Label reconciliation *)

Lemma label_correct_first (row : Labeled.row) :
  label_correct row = first_non_missing (correct_priority row).
Proof.
  unfold label_correct, correct_priority.
  destruct (Labeled.Zia row), (Labeled.Miao row); reflexivity.
Qed.

Lemma label_incorrect_first (row : Labeled.row) :
  label_incorrect row = first_non_missing (incorrect_priority row).
Proof.
  unfold label_incorrect, incorrect_priority.
  destruct (Labeled.Sitao row), (Labeled.Cao row), (Labeled.Miao row),
    (Labeled.Zia row); reflexivity.
Qed.

Lemma first_non_missing_isna (values : list cell) :
  isna (first_non_missing values) = all_missing values.
Proof.
  induction values as [|[v|] rest IH]; simpl; auto.
Qed.

Lemma isna_true {A} (c : option A) : isna c = true <-> c = None.
Proof. destruct c; simpl; split; congruence. Qed.

Lemma missing_labels_add_label (f : Labeled.row -> cell)
    (frame : list Labeled.row) (row : Labeled.row) (l : cell) :
  In (row, l) (missing_labels (add_label f frame)) <->
  In row frame /\ l = f row /\ isna (f row) = true.
Proof.
  unfold missing_labels, add_label. rewrite filter_In, in_map_iff. simpl.
  split.
  - intros [(r & E & Hin) Hna]. inversion E; subst. auto.
  - intros (Hin & -> & Hna). split; [|assumption]. now exists row.
Qed.

(** C5. The label of every row is the first non-missing rater value in
    a fixed order of the raters: Zia, Miao for the correct-set table
    and Sitao, Cao, Miao, Zia for the incorrect-set table.  A row whose
    first two raters are missing and whose third holds ["x"] gets
    ["x"].  The rows that are printed for follow-up are exactly the
    rows whose rater values are all missing, and their label stays
    missing. *)
Theorem label_is_first_non_missing_by_priority :
  forall labeled_correct labeled_incorrect : list Labeled.row,
    let '((lc, li), (flagged_c, flagged_i)) :=
      reconcile labeled_correct labeled_incorrect in
    lc = map (fun row => (row, first_non_missing (correct_priority row)))
             labeled_correct /\
    li = map (fun row => (row, first_non_missing (incorrect_priority row)))
             labeled_incorrect /\
    (forall zia x,
       label_incorrect (labeled_row None None (Some x) zia) = Some x) /\
    (forall row l,
       In (row, l) flagged_c <->
       In row labeled_correct /\ l = None /\
       all_missing (correct_priority row) = true) /\
    (forall row l,
       In (row, l) flagged_i <->
       In row labeled_incorrect /\ l = None /\
       all_missing (incorrect_priority row) = true).
Proof.
  intros labeled_correct labeled_incorrect.
  unfold reconcile. cbv beta iota zeta.
  split; [|split; [|split; [|split]]].
  - apply map_ext. intros row. now rewrite label_correct_first.
  - apply map_ext. intros row. now rewrite label_incorrect_first.
  - reflexivity.
  - intros row l. rewrite missing_labels_add_label.
    rewrite label_correct_first, <- first_non_missing_isna, isna_true.
    split; intros (Hin & Hl & Hna); repeat split; congruence.
  - intros row l. rewrite missing_labels_add_label.
    rewrite label_incorrect_first, <- first_non_missing_isna, isna_true.
    split; intros (Hin & Hl & Hna); repeat split; congruence.
Qed.

(** ** Loading *)

Section LoadingProperties.
Context {U : UnicodeData}.

Lemma process_row_cleaned (c e q : pystr) (raw : Raw.row) (r : Row) :
  process_row c e q raw = Ok r -> cleaned_from raw r.
Proof.
  unfold process_row. intros H. bind_inv H. inversion H; subst.
  repeat split.
Qed.

Lemma process_rows_cleaned (c e q : pystr) (raws : list Raw.row) :
  forall rows, process_rows c e q raws = Ok rows ->
  Forall (fun r => exists raw, In raw raws /\ cleaned_from raw r) rows.
Proof.
  induction raws as [|raw raws IH]; simpl; intros rows H.
  - inversion H. constructor.
  - bind_inv H. bind_inv H. inversion H; subst. constructor.
    + exists raw. split; [now left|]. eapply process_row_cleaned; eauto.
    + eapply Forall_impl; [|apply IH; eauto].
      intros r (raw' & Hin & Hc). exists raw'. split; [now right|assumption].
Qed.

Lemma process_file_cleaned (file : CsvFile) (df : list Row) :
  process_file file = Ok (Some df) ->
  Forall (fun r => exists raw, In raw (contents file) /\ cleaned_from raw r) df.
Proof.
  unfold process_file.
  destruct (negb _); [discriminate|].
  intros H. do 6 bind_inv H.
  destruct (negb _); [discriminate|].
  bind_inv H. inversion H; subst.
  eapply process_rows_cleaned; eauto.
Qed.

Lemma load_loop_cleaned (P : Row -> Prop) (csv_files : list CsvFile) :
  (forall file df, In file csv_files -> process_file file = Ok (Some df) ->
                   Forall P df) ->
  forall dfs dfs',
    load_loop csv_files dfs = Ok dfs' ->
    Forall (Forall P) dfs -> Forall (Forall P) dfs'.
Proof.
  induction csv_files as [|file rest IH]; simpl; intros HP dfs dfs' H Hdfs.
  - now inversion H; subst.
  - bind_inv H. destruct a as [df|].
    + eapply IH; eauto. apply Forall_app. split; [assumption|].
      constructor; [|constructor]. eapply HP; eauto.
    + eapply IH; eauto.
Qed.

Lemma frame_rows_concat_or_blank {A} (frames : list (list A)) :
  frame_rows (concat_or_blank frames) = concat frames.
Proof. destruct frames; reflexivity. Qed.

(** C6, as the code has it. Every record that [load_and_process_files]
    returns comes from a row of one of the files; its two answer
    columns are [clean_answer] of that row's, so they hold letters only
    (of either case: nothing is upper-cased), and its correctness field
    is the comparison of the two cleaned answers. *)
Theorem loaded_answers_are_letters_only :
  forall (csv_files : list CsvFile) (df : DataFrame Row),
    load_and_process_files csv_files = Ok df ->
    Forall (fun r =>
              (exists file raw,
                  In file csv_files /\ In raw (contents file) /\
                  cleaned_from raw r) /\
              letters_only (Model_Answer r) /\
              letters_only (Correct_Answer r) /\
              Is_Correct r = series_eq (Model_Answer r) (Correct_Answer r))
           (frame_rows df).
Proof.
  intros csv_files df H. unfold load_and_process_files in H.
  bind_inv H. inversion H; subst. rewrite frame_rows_concat_or_blank.
  apply Forall_concat.
  eapply load_loop_cleaned; [|eassumption|constructor].
  intros file df Hin Hf.
  eapply Forall_impl; [|apply (process_file_cleaned _ Hf)].
  intros r (raw & Hraw & Hc). split; [now exists file, raw|].
  destruct Hc as (Hm & Hk & Hi). rewrite Hm, Hk, Hi.
  repeat split; apply clean_answer_letters.
Qed.
End LoadingProperties.

(** The theorem at a file with the answers ["a"] / ["A"] and
    ["A, B"] / ["AB"]. *)
Lemma loaded_answers_are_letters_only_witness :
  exists df,
    @load_and_process_files ascii_only [example_file] = Ok df /\
    Forall (fun r =>
              @letters_only ascii_only (Model_Answer r) /\
              Is_Correct r = series_eq (Model_Answer r) (Correct_Answer r))
           (frame_rows df).
Proof.
  eexists. split; [vm_compute; reflexivity|].
  eapply Forall_impl;
    [|apply (@loaded_answers_are_letters_only ascii_only [example_file]);
      vm_compute; reflexivity].
  intros r (_ & Hm & _ & Hi). now split.
Defined.

(** C6, as the spec states it, fails: the answer ["a"] is loaded as
    ["a"], which is not an upper-case token, and is then found
    different from the key ["A"]. *)
Lemma loaded_answer_keeps_lower_case :
  exists df r,
    @load_and_process_files ascii_only [example_file] = Ok df /\
    In r (frame_rows df) /\
    Model_Answer r = Some (str_of "a") /\
    Correct_Answer r = Some (str_of "A") /\
    Is_Correct r = false /\
    ~ @uppercase_only ascii_only (Model_Answer r).
Proof.
  eexists. eexists. split; [vm_compute; reflexivity|].
  split; [left; reflexivity|]. simpl.
  repeat split. intros H. inversion H as [|? ? Hc _]. discriminate Hc.
Qed.

(** ** Seeded sampling *)

Lemma take_length {A} (rows : list A) (locs : list nat) :
  Forall (fun i => (i < length rows)%nat) locs ->
  length (take rows locs) = length locs.
Proof.
  induction 1 as [|i locs Hi _ IH]; simpl; [reflexivity|].
  apply nth_error_Some in Hi.
  destruct (nth_error rows i); [|congruence].
  simpl. now rewrite IH.
Qed.

Lemma take_In {A} (rows : list A) (locs : list nat) (r : A) :
  In r (take rows locs) -> In r rows.
Proof.
  unfold take. rewrite in_flat_map. intros (i & _ & Hr).
  destruct (nth_error rows i) as [x|] eqn:E; [|contradiction].
  destruct Hr as [<-|[]]. eapply nth_error_In; eauto.
Qed.

Lemma take_seq_from {A} (pre rows : list A) :
  take (pre ++ rows) (seq (length pre) (length rows)) = rows.
Proof.
  revert pre. induction rows as [|r rows IH]; intros pre; simpl; [reflexivity|].
  rewrite nth_error_app2 by lia. rewrite Nat.sub_diag. simpl. f_equal.
  specialize (IH (pre ++ [r])). rewrite <- app_assoc in IH. simpl in IH.
  rewrite length_app in IH. simpl in IH.
  rewrite Nat.add_1_r in IH. exact IH.
Qed.

Lemma take_seq {A} (rows : list A) : take rows (seq 0 (length rows)) = rows.
Proof. exact (take_seq_from [] rows). Qed.

Lemma take_Permutation {A} (rows : list A) (locs locs' : list nat) :
  Permutation locs locs' -> Permutation (take rows locs) (take rows locs').
Proof. intros H. unfold take. now apply Permutation_flat_map. Qed.

Lemma permutation_length (rng : RandomState) (seed n : nat) :
  length (permutation rng seed n) = n.
Proof.
  rewrite (Permutation_length (permutation_spec rng seed n)). apply length_seq.
Qed.

Lemma permutation_bound (rng : RandomState) (seed n : nat) :
  Forall (fun i => (i < n)%nat) (permutation rng seed n).
Proof.
  apply Forall_forall. intros i Hi.
  apply (Permutation_in _ (permutation_spec rng seed n)) in Hi.
  apply in_seq in Hi. lia.
Qed.

Lemma Forall_firstn {A} (P : A -> Prop) (n : nat) (l : list A) :
  Forall P l -> Forall P (firstn n l).
Proof.
  intros H. revert n. induction H as [|x l Hx _ IH]; intros [|n]; simpl;
    constructor; auto.
Qed.

Lemma filter_Permutation {A} (P : A -> bool) (l l' : list A) :
  Permutation l l' -> Permutation (filter P l) (filter P l').
Proof.
  induction 1 as [|x l l' _ IH|x y l|l l' l'' _ IH1 _ IH2]; simpl.
  - constructor.
  - destruct (P x); [now constructor|assumption].
  - destruct (P x), (P y); try reflexivity. apply perm_swap.
  - now transitivity (filter P l').
Qed.

Lemma sample_eq (rng : RandomState) {A} (rows : list A) (n seed : nat) :
  (n <= length rows)%nat ->
  sample rng rows n seed =
  Ok (take rows (firstn n (permutation rng seed (length rows)))).
Proof.
  intros H. unfold sample.
  destruct (Nat.ltb_spec (length rows) n); [lia|reflexivity].
Qed.

Lemma sample_too_large (rng : RandomState) {A} (rows : list A) (n seed : nat) :
  (length rows < n)%nat -> sample rng rows n seed = Raise ValueError.
Proof.
  intros H. unfold sample.
  destruct (Nat.ltb_spec (length rows) n); [reflexivity|lia].
Qed.

Lemma sample_inv (rng : RandomState) {A} (rows s : list A) (n seed : nat) :
  sample rng rows n seed = Ok s ->
  (n <= length rows)%nat /\ length s = n /\ (forall r, In r s -> In r rows).
Proof.
  unfold sample. destruct (Nat.ltb_spec (length rows) n); [discriminate|].
  intros E. inversion E; subst. split; [assumption|]. split.
  - rewrite take_length.
    + rewrite length_firstn, permutation_length. lia.
    + apply Forall_firstn, permutation_bound.
  - intros r. apply take_In.
Qed.

Lemma sample_all_Permutation (rng : RandomState) {A} (rows : list A)
    (seed : nat) :
  exists s, sample_all rng rows seed = Ok s /\ Permutation s rows.
Proof.
  unfold sample_all. rewrite sample_eq by lia. eexists. split; [reflexivity|].
  rewrite firstn_all2 by (rewrite permutation_length; lia).
  transitivity (take rows (seq 0 (length rows))).
  - apply take_Permutation, permutation_spec.
  - now rewrite take_seq.
Qed.

(** ** The sort order of [create_samples] *)

Lemma cmp_eq_compat_r {A} (cmp : A -> A -> comparison) :
  CompareLaws cmp ->
  forall a b c, cmp b c = Eq -> cmp a b = cmp a c.
Proof.
  intros L a b c H.
  rewrite (cmp_antisym L b a), (cmp_antisym L c a).
  now rewrite (cmp_eq_compat L b c a H).
Qed.

Lemma N_compare_laws : CompareLaws N.compare.
Proof.
  split.
  - intros a b. apply N.compare_antisym.
  - intros a b c H. apply N.compare_eq in H. now subst.
  - intros a b c. rewrite !N.compare_lt_iff. lia.
Qed.

Lemma str_compare_eq (a b : pystr) : str_compare a b = Eq -> a = b.
Proof.
  revert b. induction a as [|x a IH]; intros [|y b]; simpl; try discriminate.
  - reflexivity.
  - destruct (x ?= y) eqn:E; try discriminate.
    apply N.compare_eq in E. intros H. f_equal; auto.
Qed.

Lemma str_compare_laws : CompareLaws str_compare.
Proof.
  split.
  - intros a. induction a as [|x a IH]; intros [|y b]; simpl; try reflexivity.
    rewrite (N.compare_antisym x y).
    destruct (x ?= y); simpl; auto.
  - intros a b c H. apply str_compare_eq in H. now subst.
  - intros a. induction a as [|x a IH]; intros [|y b] [|z c]; simpl;
      try discriminate; try reflexivity.
    destruct (x ?= y) eqn:Exy; try discriminate;
      destruct (y ?= z) eqn:Eyz; try discriminate; intros H1 H2.
    + apply N.compare_eq in Exy, Eyz. subst. rewrite N.compare_refl. eauto.
    + apply N.compare_eq in Exy. subst. now rewrite Eyz.
    + apply N.compare_eq in Eyz. subst. now rewrite Exy.
    + rewrite (cmp_lt_trans N_compare_laws _ _ _ Exy Eyz). reflexivity.
Qed.

Lemma cell_compare_laws : CompareLaws cell_compare.
Proof.
  split.
  - intros [x|] [y|]; simpl; try reflexivity.
    apply (cmp_antisym str_compare_laws).
  - intros [x|] [y|] [z|]; simpl; try discriminate; try reflexivity.
    apply (cmp_eq_compat str_compare_laws).
  - intros [x|] [y|] [z|]; simpl; try discriminate; try reflexivity.
    apply (cmp_lt_trans str_compare_laws).
Qed.

Lemma on_laws {A B} (f : A -> B) (cmp : B -> B -> comparison) :
  CompareLaws cmp -> CompareLaws (on f cmp).
Proof.
  intros L. unfold on. split; intros.
  - apply (cmp_antisym L).
  - now apply (cmp_eq_compat L).
  - eapply (cmp_lt_trans L); eauto.
Qed.

Lemma descending_laws {A} (cmp : A -> A -> comparison) :
  CompareLaws cmp -> CompareLaws (descending cmp).
Proof.
  intros L. unfold descending. split.
  - intros a b. apply (cmp_antisym L).
  - intros a b c H. apply (cmp_eq_compat_r L).
    rewrite (cmp_antisym L), H. reflexivity.
  - intros a b c H1 H2. eapply (cmp_lt_trans L); eauto.
Qed.

Lemma lex_laws {A} (c1 c2 : A -> A -> comparison) :
  CompareLaws c1 -> CompareLaws c2 -> CompareLaws (lex c1 c2).
Proof.
  intros L1 L2. unfold lex. split.
  - intros a b. rewrite (cmp_antisym L1 a b).
    destruct (c1 a b); simpl; auto. apply (cmp_antisym L2).
  - intros a b c H. destruct (c1 a b) eqn:E1; try discriminate.
    rewrite (cmp_eq_compat L1 _ _ c E1).
    destruct (c1 b c); auto. now apply (cmp_eq_compat L2).
  - intros a b c H1 H2.
    destruct (c1 a b) eqn:E1; try discriminate;
      destruct (c1 b c) eqn:E2; try discriminate.
    + rewrite (cmp_eq_compat L1 _ _ c E1), E2.
      eapply (cmp_lt_trans L2); eauto.
    + now rewrite (cmp_eq_compat L1 _ _ c E1), E2.
    + now rewrite <- (cmp_eq_compat_r L1 a _ _ E2), E1.
    + now rewrite (cmp_lt_trans L1 _ _ _ E1 E2).
Qed.

Lemma leb_of_total {A} (cmp : A -> A -> comparison) :
  CompareLaws cmp ->
  forall a b, leb_of cmp a b = false -> leb_of cmp b a = true.
Proof.
  intros L a b. unfold leb_of. rewrite (cmp_antisym L a b).
  destruct (cmp a b); simpl; congruence.
Qed.

Lemma leb_of_trans {A} (cmp : A -> A -> comparison) :
  CompareLaws cmp ->
  forall a b c,
    leb_of cmp a b = true -> leb_of cmp b c = true -> leb_of cmp a c = true.
Proof.
  intros L a b c. unfold leb_of.
  destruct (cmp a b) eqn:E1; try discriminate;
    destruct (cmp b c) eqn:E2; try discriminate; intros _ _.
  - now rewrite (cmp_eq_compat L _ _ c E1), E2.
  - now rewrite (cmp_eq_compat L _ _ c E1), E2.
  - now rewrite <- (cmp_eq_compat_r L a _ _ E2), E1.
  - now rewrite (cmp_lt_trans L _ _ _ E1 E2).
Qed.

Lemma row_compare_lex :
  row_compare =
  lex (on Model cell_compare)
      (lex (on Exam_Type str_compare)
           (descending (on Question_Type str_compare))).
Proof. reflexivity. Qed.

Lemma row_compare_laws : CompareLaws row_compare.
Proof.
  rewrite row_compare_lex.
  apply lex_laws; [apply on_laws, cell_compare_laws|].
  apply lex_laws; [apply on_laws, str_compare_laws|].
  apply descending_laws, on_laws, str_compare_laws.
Qed.

Lemma row_le_total (a b : Row) : row_leb a b = false -> row_le b a.
Proof. apply (leb_of_total row_compare_laws). Qed.

Lemma row_le_trans (a b c : Row) : row_le a b -> row_le b c -> row_le a c.
Proof. apply (leb_of_trans row_compare_laws). Qed.

Lemma insert_row_Permutation (r : Row) (l : list Row) :
  Permutation (insert_row r l) (r :: l).
Proof.
  induction l as [|h t IH]; simpl; [reflexivity|].
  destruct (row_leb r h); [reflexivity|].
  rewrite IH. apply perm_swap.
Qed.

Lemma sort_rows_Permutation (l : list Row) : Permutation (sort_rows l) l.
Proof.
  induction l as [|r t IH]; simpl; [reflexivity|].
  rewrite insert_row_Permutation. now constructor.
Qed.

Lemma insert_row_sorted (r : Row) (l : list Row) :
  StronglySorted row_le l -> StronglySorted row_le (insert_row r l).
Proof.
  induction 1 as [|h t Ht IH Hh]; simpl.
  - repeat constructor.
  - destruct (row_leb r h) eqn:E.
    + constructor; [now constructor|]. constructor; [exact E|].
      eapply Forall_impl; [|exact Hh]. intros x. now apply row_le_trans.
    + constructor; [exact IH|].
      apply (Permutation_Forall (Permutation_sym (insert_row_Permutation r t))).
      constructor; [now apply row_le_total | assumption].
Qed.

Lemma sort_rows_sorted (l : list Row) : StronglySorted row_le (sort_rows l).
Proof.
  induction l as [|r t IH]; simpl; [constructor | now apply insert_row_sorted].
Qed.

(** ** Sample identifiers *)

Lemma ascii_digits_value_step (k : nat) (t : pystr) (acc : nat) :
  (k <= 9)%nat ->
  ascii_digits_value acc (digit_char k :: t) =
  ascii_digits_value (10 * acc + k) t.
Proof.
  intros Hk. do 10 (destruct k as [|k]; [reflexivity|]). lia.
Qed.

Lemma ascii_digits_value_uint (u : Decimal.uint) (acc : nat) :
  ascii_digits_value acc (uint_chars u) = Some (Nat.of_uint_acc u acc).
Proof.
  revert acc.
  induction u as [|u IH|u IH|u IH|u IH|u IH|u IH|u IH|u IH|u IH|u IH];
    intros acc; cbn [uint_chars Nat.of_uint_acc];
    [ reflexivity
    | rewrite ascii_digits_value_step by lia; rewrite IH; do 2 f_equal;
      rewrite Nat.tail_mul_spec; lia .. ].
Qed.

Lemma ascii_digits_value_zeros (k : nat) (t : pystr) :
  ascii_digits_value 0 (repeat (digit_char 0) k ++ t) = ascii_digits_value 0 t.
Proof.
  induction k as [|k IH]; [reflexivity|].
  cbn [repeat app]. rewrite ascii_digits_value_step by lia. exact IH.
Qed.

Lemma format_03d_value (i : nat) :
  ascii_digits_value 0 (format_03d i) = Some i.
Proof.
  unfold format_03d. rewrite ascii_digits_value_zeros, ascii_digits_value_uint.
  fold (Nat.of_uint (Nat.to_uint i)). now rewrite Unsigned.of_to.
Qed.

Lemma format_03d_nonempty (i : nat) : format_03d i <> [].
Proof.
  unfold format_03d. intros H. apply app_eq_nil in H. destruct H as [_ H].
  exact (str_of_nat_nonempty i H).
Qed.

Lemma format_03d_length (i : nat) : (3 <= length (format_03d i))%nat.
Proof.
  unfold format_03d. rewrite length_app, repeat_length. lia.
Qed.

Lemma sample_number_sample_id (i : nat) : sample_number (sample_id i) = Some i.
Proof.
  unfold sample_id. cbn [str_of app]. change (N_of_ascii "S") with 83.
  pose proof (format_03d_nonempty i) as Hne.
  pose proof (format_03d_value i) as Hv.
  destruct (format_03d i) as [|d ds]; [congruence|exact Hv].
Qed.

Lemma sample_id_injective (i j : nat) : sample_id i = sample_id j -> i = j.
Proof.
  intros H. apply (f_equal sample_number) in H.
  rewrite !sample_number_sample_id in H. congruence.
Qed.

Lemma id_lt_sample_id (i j : nat) :
  id_lt (sample_id i) (sample_id j) <-> (i < j)%nat.
Proof. unfold id_lt. now rewrite !sample_number_sample_id. Qed.

Lemma seq_StronglySorted (start len : nat) :
  StronglySorted lt (seq start len).
Proof.
  revert start. induction len as [|len IH]; intros start; simpl; constructor.
  - apply IH.
  - apply Forall_forall. intros x Hx. apply in_seq in Hx. lia.
Qed.

Lemma StronglySorted_map {A B} (R : A -> A -> Prop) (S : B -> B -> Prop)
    (f : A -> B) (l : list A) :
  (forall a b, R a b -> S (f a) (f b)) ->
  StronglySorted R l -> StronglySorted S (map f l).
Proof.
  intros HRS. induction 1 as [|a l _ IH Ha]; simpl; constructor;
    [exact IH|].
  apply Forall_map. eapply Forall_impl; [|exact Ha]. intros b. apply HRS.
Qed.

Lemma sample_ids_increasing (start len : nat) :
  StronglySorted id_lt (map sample_id (seq start len)).
Proof.
  apply StronglySorted_map with (R := lt); [|apply seq_StronglySorted].
  intros a b. apply id_lt_sample_id.
Qed.

Lemma sample_ids_NoDup (start len : nat) :
  NoDup (map sample_id (seq start len)).
Proof.
  apply Finite.Injective_map_NoDup; [|apply seq_NoDup].
  intros i j. apply sample_id_injective.
Qed.

Lemma assign_ids_cons (start : nat) (r : Row) (rows : list Row) :
  assign_ids start (r :: rows) =
  {| Sample_ID := sample_id start; base := r; code := None; comment := None |}
  :: assign_ids (S start) rows.
Proof. reflexivity. Qed.

Lemma assign_ids_base (start : nat) (rows : list Row) :
  map base (assign_ids start rows) = rows.
Proof.
  revert start. induction rows as [|r rows IH]; intros start; [reflexivity|].
  rewrite assign_ids_cons. simpl. now rewrite IH.
Qed.

Lemma assign_ids_ids (start : nat) (rows : list Row) :
  map Sample_ID (assign_ids start rows) = map sample_id (seq start (length rows)).
Proof.
  revert start. induction rows as [|r rows IH]; intros start; [reflexivity|].
  rewrite assign_ids_cons. simpl. now rewrite IH.
Qed.

Lemma assign_ids_length (start : nat) (rows : list Row) :
  length (assign_ids start rows) = length rows.
Proof. rewrite <- (length_map base). now rewrite assign_ids_base. Qed.

Lemma assign_ids_blank_annotations (start : nat) (rows : list Row) :
  Forall (fun s => code s = None /\ comment s = None) (assign_ids start rows).
Proof.
  revert start. induction rows as [|r rows IH]; intros start; [constructor|].
  rewrite assign_ids_cons. constructor; [now split | apply IH].
Qed.

(** Beyond three digits the identifiers are no longer ordered as
    strings, only by their numbers. *)
Lemma sample_id_string_order_beyond_999 :
  str_compare (sample_id 999) (sample_id 1000) = Gt /\
  id_lt (sample_id 999) (sample_id 1000).
Proof. split; [reflexivity | apply id_lt_sample_id; lia]. Qed.

(** ** The loop of [create_samples] *)

Lemma same_value_eq (a b : cell) : same_value a b = true <-> a = b.
Proof.
  destruct a as [x|], b as [y|]; simpl; try (split; congruence).
  rewrite str_eqb_eq. split; congruence.
Qed.

Lemma unique_In (l : list cell) (x : cell) : In x (unique l) <-> In x l.
Proof.
  induction l as [|y l IH]; simpl; [reflexivity|].
  rewrite filter_In, IH. split.
  - intros [H|[H _]]; auto.
  - intros [H|H]; [now left|].
    destruct (same_value y x) eqn:E.
    + left. now apply same_value_eq.
    + right. now split.
Qed.

Lemma unique_NoDup (l : list cell) : NoDup (unique l).
Proof.
  induction l as [|y l IH]; simpl; constructor.
  - rewrite filter_In. intros [_ H].
    assert (same_value y y = true) as E by now apply same_value_eq.
    now rewrite E in H.
  - now apply NoDup_filter.
Qed.

Lemma take_nil {A} (locs : list nat) : take (@nil A) locs = [].
Proof.
  induction locs as [|i locs IH]; simpl; [reflexivity|].
  now destruct i.
Qed.

Lemma length_zero_nil {A} (l : list A) : (0 <? length l)%nat = false -> l = [].
Proof. destruct l; [reflexivity|discriminate]. Qed.




Lemma sampling_loop_eq (rng : RandomState) (rows : list Row)
    (models : list cell) :
  str_accessor (map Model_Answer rows) = Ok tt ->
  forall true_samples false_samples,
    sampling_loop rng rows models true_samples false_samples =
    Ok (true_samples ++ true_frames rng rows models,
        false_samples ++ false_frames rows models).
Proof.
  intros Hs. induction models as [|model rest IH]; intros ts fs.
  - simpl. now rewrite !app_nil_r.
  - cbn [sampling_loop]. rewrite Hs.
    unfold true_frames, false_frames. cbn [flat_map].
    fold (true_frames rng rows rest). fold (false_frames rows rest).
    fold (model_rows model rows).
    fold (correct_rows (model_rows model rows)).
    fold (incorrect_rows (model_rows model rows)).
    destruct (0 <? length (correct_rows (model_rows model rows)))%nat.
    + rewrite sample_eq by apply Nat.le_min_r. cbn [bind]. rewrite IH.
      fold (true_frame rng rows model).
      destruct (0 <? length (incorrect_rows (model_rows model rows)))%nat;
        now rewrite <- !app_assoc.
    + cbn [bind]. rewrite IH.
      destruct (0 <? length (incorrect_rows (model_rows model rows)))%nat;
        now rewrite <- ?app_assoc.
Qed.

(** On a column without text the first turn of the loop raises. *)
Lemma sampling_loop_raises (rng : RandomState) (rows : list Row)
    (model : cell) (rest : list cell) (e : exn)
    (true_samples false_samples : list (list Row)) :
  str_accessor (map Model_Answer rows) = Raise e ->
  sampling_loop rng rows (model :: rest) true_samples false_samples = Raise e.
Proof.
  intros Hs. cbn [sampling_loop]. rewrite Hs.
  destruct (0 <? length _)%nat.
  - now rewrite sample_eq by apply Nat.le_min_r.
  - reflexivity.
Qed.

Lemma true_frame_length (rng : RandomState) (rows : list Row) (model : cell) :
  length (true_frame rng rows model) =
  Nat.min 30 (length (correct_rows (model_rows model rows))).
Proof.
  unfold true_frame. rewrite take_length.
  - rewrite length_firstn, permutation_length. lia.
  - apply Forall_firstn, permutation_bound.
Qed.

Lemma concat_true_frames (rng : RandomState) (rows : list Row)
    (models : list cell) :
  concat (true_frames rng rows models) =
  concat (map (true_frame rng rows) models).
Proof.
  induction models as [|model rest IH]; [reflexivity|].
  unfold true_frames. cbn [flat_map map]. fold (true_frames rng rows rest).
  rewrite concat_app, IH. cbn [concat]. f_equal.
  destruct (0 <? length (correct_rows (model_rows model rows)))%nat eqn:E;
    [apply app_nil_r|].
  symmetry. apply length_zero_iff_nil.
  now rewrite true_frame_length, (length_zero_nil _ E).
Qed.

Lemma concat_false_frames (rows : list Row) (models : list cell) :
  concat (false_frames rows models) =
  concat (map (fun model => incorrect_rows (model_rows model rows)) models).
Proof.
  induction models as [|model rest IH]; simpl; [reflexivity|].
  rewrite concat_app, IH. f_equal.
  destruct (0 <? length (incorrect_rows (model_rows model rows)))%nat eqn:E;
    simpl; [apply app_nil_r|].
  now rewrite (length_zero_nil _ E).
Qed.

Lemma true_frame_In (rng : RandomState) (rows : list Row) (model : cell)
    (r : Row) :
  In r (true_frame rng rows model) -> In r (correct_rows (model_rows model rows)).
Proof. apply take_In. Qed.

Lemma correct_rows_In (rows : list Row) (r : Row) :
  In r (correct_rows rows) <-> In r rows /\ Is_Correct r = true.
Proof.
  unfold correct_rows. rewrite filter_In. now destruct (Is_Correct r).
Qed.

Lemma incorrect_rows_In (rows : list Row) (r : Row) :
  In r (incorrect_rows rows) <->
  In r rows /\ Is_Correct r = false /\
  contains_na_false skip_marker (Model_Answer r) = false.
Proof.
  unfold incorrect_rows. rewrite filter_In, andb_true_iff, negb_true_iff.
  now destruct (Is_Correct r).
Qed.

Lemma model_rows_In (model : cell) (rows : list Row) (r : Row) :
  In r (model_rows model rows) <-> In r rows /\ series_eq (Model r) model = true.
Proof. unfold model_rows. apply filter_In. Qed.

Lemma series_eq_model (c model : cell) :
  series_eq c model = true -> c = model /\ exists m, model = Some m.
Proof.
  destruct c as [x|], model as [y|]; simpl; try discriminate.
  rewrite str_eqb_eq. intros ->. eauto.
Qed.

(** Rows collected for [model] count for a model [m] only if [model] is
    [m]. *)
Lemma of_model_frame (m : pystr) (model : cell) (frame : list Row) :
  (forall r, In r frame -> series_eq (Model r) model = true) ->
  of_model m frame = if same_value (Some m) model then frame else [].
Proof.
  intros H. unfold of_model.
  destruct (same_value (Some m) model) eqn:E.
  - apply same_value_eq in E. subst model. apply filter_all.
    now apply Forall_forall.
  - induction frame as [|r frame IH]; simpl; [reflexivity|].
    rewrite IH by (intros; apply H; now right).
    destruct (series_eq (Model r) (Some m)) eqn:E'; [|reflexivity].
    apply series_eq_some in E'. specialize (H r (or_introl eq_refl)).
    apply series_eq_model in H. destruct H as [H _].
    assert (same_value (Some m) model = true) by (apply same_value_eq; congruence).
    congruence.
Qed.

Lemma of_model_app (m : pystr) (a b : list Row) :
  of_model m (a ++ b) = of_model m a ++ of_model m b.
Proof. apply filter_app. Qed.

Lemma of_model_concat_map (g : cell -> list Row) (m : pystr)
    (models : list cell) :
  NoDup models ->
  (forall model r, In r (g model) -> series_eq (Model r) model = true) ->
  of_model m (concat (map g models)) =
  if existsb (same_value (Some m)) models then g (Some m) else [].
Proof.
  intros Hnd Hg. induction Hnd as [|model rest Hnotin _ IH]; [reflexivity|].
  cbn [map concat existsb].
  rewrite of_model_app, IH, (of_model_frame m model (g model) (Hg model)).
  destruct (same_value (Some m) model) eqn:E; cbn [orb].
  - apply same_value_eq in E. subst model.
    destruct (existsb (same_value (Some m)) rest) eqn:E'.
    + apply existsb_exists in E'. destruct E' as (x & Hx & Ex).
      apply same_value_eq in Ex. subst x. contradiction.
    + apply app_nil_r.
  - reflexivity.
Qed.

Lemma of_model_absent (m : pystr) (rows : list Row) :
  existsb (same_value (Some m)) (unique (map Model rows)) = false ->
  of_model m rows = [].
Proof.
  intros H. unfold of_model.
  induction rows as [|r rows IH]; [reflexivity|].
  simpl. destruct (series_eq (Model r) (Some m)) eqn:E.
  - apply series_eq_some in E. exfalso.
    assert (existsb (same_value (Some m)) (unique (map Model (r :: rows))) = true)
      as Hex; [|congruence].
    apply existsb_exists. exists (Some m). split.
    + apply unique_In. left. exact E.
    + now apply same_value_eq.
  - apply IH.
    destruct (existsb (same_value (Some m)) (unique (map Model rows))) eqn:E';
      [|reflexivity].
    apply existsb_exists in E'. destruct E' as (x & Hx & Ex).
    assert (existsb (same_value (Some m)) (unique (map Model (r :: rows))) = true)
      as Hex; [|congruence].
    apply existsb_exists. exists x. split; [|exact Ex].
    apply unique_In. right. now apply unique_In.
Qed.

(** The correct sample restricted to one model. *)
Lemma of_model_true_frames (rng : RandomState) (rows : list Row) (m : pystr) :
  of_model m (concat (true_frames rng rows (unique (map Model rows)))) =
  if existsb (same_value (Some m)) (unique (map Model rows))
  then true_frame rng rows (Some m) else [].
Proof.
  rewrite concat_true_frames. apply of_model_concat_map.
  - apply unique_NoDup.
  - intros model r Hr. apply true_frame_In, correct_rows_In in Hr.
    destruct Hr as [Hr _]. now apply model_rows_In in Hr.
Qed.

(** The incorrect sample restricted to one model. *)
Lemma of_model_false_frames (rows : list Row) (m : pystr) :
  of_model m (concat (false_frames rows (unique (map Model rows)))) =
  incorrect_rows (of_model m rows).
Proof.
  rewrite concat_false_frames.
  rewrite (of_model_concat_map
             (fun model => incorrect_rows (model_rows model rows))).
  - destruct (existsb _ _) eqn:E; [reflexivity|].
    now rewrite (of_model_absent _ _ E).
  - apply unique_NoDup.
  - intros model r Hr. apply incorrect_rows_In in Hr.
    destruct Hr as [Hr _]. now apply model_rows_In in Hr.
Qed.

(** ** [create_samples] *)

Lemma guarded_assign_ids (start : nat) (rows : list Row) :
  (if negb (is_empty rows) then assign_ids start rows else []) =
  assign_ids start rows.
Proof. now destruct rows. Qed.

(** [create_samples] returns exactly when the loop collected a frame of
    correct answers and a frame of incorrect answers; otherwise the
    sort of a blank frame raises. *)
Lemma create_samples_eq (rng : RandomState) (rows : list Row) :
  create_samples rng (Table rows) =
  (_ <- str_accessor (map Model_Answer rows) ;;
   let models := unique (map Model rows) in
   match true_frames rng rows models, false_frames rows models with
   | (_ :: _) as tf, (_ :: _) as ff =>
       let t := assign_ids 1 (sort_rows (concat tf)) in
       Ok (t, assign_ids (length t + 1) (sort_rows (concat ff)))
   | _, _ => Raise KeyError
   end).
Proof.
  unfold create_samples.
  destruct (str_accessor (map Model_Answer rows)) as [[]|e] eqn:Es;
    cbn [bind].
  2:{ destruct rows as [|r rows]; [discriminate Es|].
      cbn [map unique]. now rewrite (sampling_loop_raises _ _ _ _ _ _ Es). }
  rewrite sampling_loop_eq by exact Es. cbn [bind fst snd app].
  cbv zeta.
  destruct (true_frames rng rows (unique (map Model rows))) as [|tf tfs];
    [reflexivity|].
  destruct (false_frames rows (unique (map Model rows))) as [|ff ffs];
    [reflexivity|].
  cbn [concat_or_blank sort_values bind].
  now rewrite !guarded_assign_ids.
Qed.

Lemma create_samples_inv (rng : RandomState) (df : DataFrame Row)
    (t f : list Sample) :
  create_samples rng df = Ok (t, f) ->
  exists rows,
    df = Table rows /\
    let models := unique (map Model rows) in
    true_frames rng rows models <> [] /\
    false_frames rows models <> [] /\
    t = assign_ids 1 (sort_rows (concat (true_frames rng rows models))) /\
    f = assign_ids (length t + 1)
                   (sort_rows (concat (false_frames rows models))).
Proof.
  destruct df as [|rows]; [discriminate|].
  rewrite create_samples_eq.
  destruct (str_accessor (map Model_Answer rows)) as [[]|e]; [|discriminate].
  cbn [bind]. cbv zeta. intros H. exists rows.
  split; [reflexivity|].
  destruct (true_frames rng rows (unique (map Model rows))) as [|tf tfs];
    [discriminate|].
  destruct (false_frames rows (unique (map Model rows))) as [|ff ffs];
    [discriminate|].
  inversion H; subst. repeat split; discriminate.
Qed.




(** With no correct answer at all, or no incorrect answer that counts,
    one of the two frames is [pd.DataFrame()] and sorting it raises. *)
Lemma create_samples_raises (rng : RandomState) (rows : list Row) :
  (forall r, In r rows -> Is_Correct r = false) \/
  (forall r, In r rows ->
             Is_Correct r = true \/
             contains_na_false skip_marker (Model_Answer r) = true) ->
  str_accessor (map Model_Answer rows) = Ok tt ->
  create_samples rng (Table rows) = Raise KeyError.
Proof.
  intros H Hacc. rewrite create_samples_eq, Hacc. cbn [bind]. cbv zeta.
  destruct H as [H|H].
  - replace (true_frames rng rows (unique (map Model rows))) with (@nil (list Row));
      [reflexivity|].
    symmetry. unfold true_frames. generalize (unique (map Model rows)).
    intros models. induction models as [|model rest IH]; [reflexivity|].
    cbn [flat_map]. rewrite IH.
    destruct (correct_rows (model_rows model rows)) as [|r l] eqn:E;
      [reflexivity|].
    assert (In r (correct_rows (model_rows model rows))) as Hr
      by (rewrite E; now left).
    apply correct_rows_In in Hr. destruct Hr as [Hr Hc].
    apply model_rows_In in Hr. destruct Hr as [Hr _].
    rewrite (H r Hr) in Hc. discriminate.
  - replace (false_frames rows (unique (map Model rows))) with (@nil (list Row)).
    + now destruct (true_frames rng rows (unique (map Model rows))).
    + symmetry. unfold false_frames. generalize (unique (map Model rows)).
      intros models. induction models as [|model rest IH]; [reflexivity|].
      cbn [flat_map]. rewrite IH.
      destruct (incorrect_rows (model_rows model rows)) as [|r l] eqn:E;
        [reflexivity|].
      assert (In r (incorrect_rows (model_rows model rows))) as Hr
        by (rewrite E; now left).
      apply incorrect_rows_In in Hr. destruct Hr as (Hr & Hc & Hs).
      apply model_rows_In in Hr. destruct Hr as [Hr _].
      destruct (H r Hr); congruence.
Qed.

(** C3. In the correct sample that [create_samples] returns, the rows
    of every model [m] are [min(30, n)] of that model's [n] correct
    answers in the input table: exactly 30 when [n >= 30], and all [n]
    of them when there are fewer. *)
Theorem correct_sample_size_per_model :
  forall (rng : RandomState) (df : DataFrame Row) (t f : list Sample),
    create_samples rng df = Ok (t, f) ->
    forall m : pystr,
      let n := length (correct_rows (of_model m (frame_rows df))) in
      let sampled := of_model m (map base t) in
      length sampled = Nat.min 30 n /\
      ((30 <= n)%nat -> length sampled = 30%nat) /\
      ((n < 30)%nat -> length sampled = n) /\
      Forall (fun r => In r (correct_rows (of_model m (frame_rows df)))) sampled.
Proof.
  intros rng df t f H m. apply create_samples_inv in H.
  destruct H as (rows & -> & _ & _ & -> & _). cbv zeta. cbn [frame_rows].
  rewrite assign_ids_base.
  assert (Permutation
            (of_model m (sort_rows (concat (true_frames rng rows
                                              (unique (map Model rows))))))
            (if existsb (same_value (Some m)) (unique (map Model rows))
             then true_frame rng rows (Some m) else [])) as HP.
  { rewrite <- of_model_true_frames. apply filter_Permutation.
    apply sort_rows_Permutation. }
  assert (length (of_model m (sort_rows (concat (true_frames rng rows
                                                   (unique (map Model rows))))))
          = Nat.min 30 (length (correct_rows (of_model m rows)))) as HL.
  { rewrite (Permutation_length HP).
    destruct (existsb _ _) eqn:E.
    - apply true_frame_length.
    - now rewrite (of_model_absent _ _ E). }
  split; [exact HL|]. split; [lia|]. split; [lia|].
  apply (Permutation_Forall (Permutation_sym HP)).
  destruct (existsb _ _); [|constructor].
  apply Forall_forall. intros r. apply true_frame_In.
Qed.

Lemma correct_sample_size_per_model_witness :
  exists t f,
    create_samples reversing_state sized_table = Ok (t, f) /\
    length (of_model (str_of "qwen") (map base t)) = 30%nat /\
    length (of_model (str_of "gpt") (map base t)) = 5%nat.
Proof.
  destruct (create_samples reversing_state sized_table) as [[t f]|e] eqn:E.
  - exists t, f. split; [reflexivity|].
    pose proof (correct_sample_size_per_model _ _ E (str_of "qwen"))
      as (_ & Hq & _).
    pose proof (correct_sample_size_per_model _ _ E (str_of "gpt"))
      as (_ & _ & Hg & _).
    split.
    + apply Hq. vm_compute. lia.
    + rewrite Hg by (vm_compute; lia). reflexivity.
  - vm_compute in E. discriminate E.
Defined.

Lemma In_false_frames (rows : list Row) (r : Row) :
  In r (concat (false_frames rows (unique (map Model rows)))) <->
  In r rows /\ Model r <> None /\ Is_Correct r = false /\
  contains_na_false skip_marker (Model_Answer r) = false.
Proof.
  rewrite concat_false_frames, in_concat. split.
  - intros (frame & Hf & Hr). apply in_map_iff in Hf.
    destruct Hf as (model & <- & _). apply incorrect_rows_In in Hr.
    destruct Hr as (Hr & Hc & Hs). apply model_rows_In in Hr.
    destruct Hr as [Hr Hm]. apply series_eq_model in Hm.
    destruct Hm as [Hm [m ->]]. repeat split; congruence.
  - intros (Hr & Hm & Hc & Hs).
    exists (incorrect_rows (model_rows (Model r) rows)). split.
    + apply in_map_iff. exists (Model r). split; [reflexivity|].
      apply unique_In, in_map, Hr.
    + apply incorrect_rows_In. split; [|now split].
      apply model_rows_In. split; [assumption|].
      destruct (Model r); [apply str_eqb_refl|congruence].
Qed.

(** C4. The incorrect sample that [create_samples] returns holds, for
    every model [m], exactly the rows of [m] in the input table whose
    correctness is false and whose answer does not contain the skip
    marker, each as often as in the table.  A row is in the sample if
    and only if it is such a row of some model; no sampled row contains
    the skip marker. *)
Theorem incorrect_sample_is_exhaustive :
  forall (rng : RandomState) (df : DataFrame Row) (t f : list Sample),
    create_samples rng df = Ok (t, f) ->
    (forall m : pystr,
       Permutation (of_model m (map base f))
                   (incorrect_rows (of_model m (frame_rows df)))) /\
    (forall r : Row,
       In r (map base f) <->
       In r (frame_rows df) /\ Model r <> None /\ Is_Correct r = false /\
       contains_na_false skip_marker (Model_Answer r) = false) /\
    Forall (fun r => contains_na_false skip_marker (Model_Answer r) = false)
           (map base f).
Proof.
  intros rng df t f H. apply create_samples_inv in H.
  destruct H as (rows & -> & _ & _ & _ & ->). cbn [frame_rows].
  rewrite assign_ids_base.
  assert (forall r : Row,
             In r (sort_rows (concat (false_frames rows (unique (map Model rows)))))
             <-> In r rows /\ Model r <> None /\ Is_Correct r = false /\
                 contains_na_false skip_marker (Model_Answer r) = false) as HIn.
  { intros r. rewrite <- In_false_frames. split; apply Permutation_in.
    - apply sort_rows_Permutation.
    - apply Permutation_sym, sort_rows_Permutation. }
  split; [|split].
  - intros m. rewrite <- of_model_false_frames.
    apply filter_Permutation, sort_rows_Permutation.
  - exact HIn.
  - apply Forall_forall. intros r Hr. now apply HIn in Hr.
Qed.

Lemma incorrect_sample_is_exhaustive_witness :
  exists t f,
    create_samples reversing_state example_table = Ok (t, f) /\
    length f = 2%nat /\
    Forall (fun r => contains_na_false skip_marker (Model_Answer r) = false)
           (map base f).
Proof.
  destruct (create_samples reversing_state example_table) as [[t f]|e] eqn:E.
  - exists t, f. split; [reflexivity|]. split.
    + vm_compute in E. inversion E. reflexivity.
    + exact (proj2 (proj2 (incorrect_sample_is_exhaustive _ _ E))).
  - vm_compute in E. discriminate E.
Defined.

(** Up to [S999] the identifiers are also ordered as strings. *)
Lemma sample_id_string_order_adjacent (i : nat) :
  (i < 999)%nat -> str_compare (sample_id i) (sample_id (S i)) = Lt.
Proof.
  intros Hi.
  assert (forallb (fun i => match str_compare (sample_id i) (sample_id (S i)) with
                            | Lt => true
                            | _ => false
                            end) (seq 0 999) = true) as H
    by (vm_compute; reflexivity).
  rewrite forallb_forall in H. specialize (H i).
  destruct (str_compare (sample_id i) (sample_id (S i))); try reflexivity;
    (assert (false = true) as F by (apply H, in_seq; lia); discriminate F).
Qed.

Lemma sample_id_string_order_up_to_999 (i j : nat) :
  (i < j)%nat -> (j <= 999)%nat ->
  str_compare (sample_id i) (sample_id j) = Lt.
Proof.
  intros Hij. induction Hij as [|j Hij IH]; intros Hj.
  - apply sample_id_string_order_adjacent. lia.
  - apply (cmp_lt_trans str_compare_laws) with (b := sample_id j).
    + apply IH. lia.
    + apply sample_id_string_order_adjacent. lia.
Qed.


Lemma model_rows_has_model (model : cell) (rows : list Row) (r : Row) :
  In r (model_rows model rows) -> In r rows /\ Model r <> None.
Proof.
  intros H. apply model_rows_In in H. destruct H as [Hin Hm].
  split; [assumption|]. apply series_eq_model in Hm.
  destruct Hm as [Hm [m ->]]. congruence.
Qed.

Lemma true_frames_rows (rng : RandomState) (rows : list Row)
    (models : list cell) (r : Row) :
  In r (concat (true_frames rng rows models)) ->
  In r rows /\ Model r <> None /\ Is_Correct r = true.
Proof.
  rewrite concat_true_frames, in_concat. intros (frame & Hf & Hr).
  apply in_map_iff in Hf. destruct Hf as (model & <- & _).
  apply true_frame_In, correct_rows_In in Hr. destruct Hr as [Hr Hc].
  apply model_rows_has_model in Hr. tauto.
Qed.

Lemma create_samples_ids (rng : RandomState) (df : DataFrame Row)
    (t f : list Sample) :
  create_samples rng df = Ok (t, f) ->
  map Sample_ID (t ++ f) = map sample_id (seq 1 (length t + length f)).
Proof.
  intros H. apply create_samples_inv in H.
  destruct H as (rows & _ & _ & _ & Ht & Hf).
  rewrite map_app, seq_app, map_app. f_equal.
  - rewrite Ht at 1. rewrite assign_ids_ids. do 2 f_equal.
    now rewrite Ht, assign_ids_length.
  - rewrite Hf at 1. rewrite assign_ids_ids. do 2 f_equal; [lia|].
    now rewrite Hf, assign_ids_length.
Qed.

(** ** The order of the samples, in the words of the specification *)

Lemma str_lt_compare (a b : pystr) : str_compare a b = Lt <-> str_lt a b.
Proof.
  revert b. induction a as [|x a IH]; intros [|y b]; simpl.
  - split; [discriminate|]. intros H. inversion H.
  - split; [constructor|reflexivity].
  - split; [discriminate|]. intros H. inversion H.
  - destruct (N.compare_spec x y) as [->|Hlt|Hgt].
    + rewrite IH. split; [now constructor|].
      intros H. inversion H; subst; [lia|assumption].
    + split; [now constructor|reflexivity].
    + split; [discriminate|].
      intros H. inversion H; subst; lia.
Qed.

Lemma str_compare_refl (a : pystr) : str_compare a a = Eq.
Proof.
  induction a as [|x a IH]; [reflexivity|]. simpl. now rewrite N.compare_refl.
Qed.

(** On records that name a model, the order the code sorts by is the
    order of the specification. *)
Lemma row_le_key_ordered (a b : Row) :
  Model a <> None -> Model b <> None -> (row_le a b <-> key_ordered a b).
Proof.
  intros Ha Hb. unfold row_le, row_leb, row_compare, key_ordered.
  destruct (Model a) as [ma|]; [|congruence].
  destruct (Model b) as [mb|]; [|congruence]. cbn [cell_compare].
  split.
  - intros H. exists ma, mb. split; [reflexivity|]. split; [reflexivity|].
    destruct (str_compare ma mb) eqn:Em.
    + right. split; [now apply str_compare_eq|].
      destruct (str_compare (Exam_Type a) (Exam_Type b)) eqn:Ee.
      * right. split; [now apply str_compare_eq|].
        destruct (str_compare (Question_Type b) (Question_Type a)) eqn:Eq'.
        -- right. symmetry. now apply str_compare_eq.
        -- left. now apply str_lt_compare.
        -- discriminate H.
      * left. now apply str_lt_compare.
      * discriminate H.
    + left. now apply str_lt_compare.
    + discriminate H.
  - intros (ma' & mb' & Hma & Hmb & H). inversion Hma; inversion Hmb; subst.
    destruct H as [H|[-> H]].
    + apply str_lt_compare in H. now rewrite H.
    + rewrite str_compare_refl. destruct H as [H|[-> H]].
      * apply str_lt_compare in H. now rewrite H.
      * rewrite str_compare_refl. destruct H as [H| ->].
        -- apply str_lt_compare in H. now rewrite H.
        -- now rewrite str_compare_refl.
Qed.

Lemma StronglySorted_impl_Forall {A} (R R' : A -> A -> Prop) (P : A -> Prop)
    (l : list A) :
  (forall a b, P a -> P b -> R a b -> R' a b) ->
  Forall P l -> StronglySorted R l -> StronglySorted R' l.
Proof.
  intros Himpl HP HS. induction HS as [|a l HS IH Hall]; [constructor|].
  inversion HP as [|? ? Pa Pl]; subst. constructor; [now apply IH|].
  rewrite Forall_forall in *. intros b Hb. apply Himpl; auto.
Qed.

Lemma StronglySorted_nth_error {A} (R : A -> A -> Prop) (l : list A)
    (i j : nat) (a b : A) :
  StronglySorted R l -> (i < j)%nat ->
  nth_error l i = Some a -> nth_error l j = Some b -> R a b.
Proof.
  intros HS. revert i j. induction HS as [|x l HS IH Hall]; intros i j Hij Hi Hj.
  - now destruct i.
  - destruct j as [|j]; [lia|]. cbn [nth_error] in Hj.
    destruct i as [|i].
    + inversion Hi; subst. rewrite Forall_forall in Hall.
      apply Hall. eapply nth_error_In; eassumption.
    + cbn [nth_error] in Hi. apply (IH i j); [lia|assumption..].
Qed.

(** Both sample tables are sorted in the order of the specification. *)
Lemma create_samples_key_ordered (rng : RandomState) (df : DataFrame Row)
    (t f : list Sample) :
  create_samples rng df = Ok (t, f) ->
  StronglySorted key_ordered (map base t) /\
  StronglySorted key_ordered (map base f).
Proof.
  intros H. apply create_samples_inv in H.
  destruct H as (rows & _ & _ & _ & Ht & Hf). split.
  - rewrite Ht, assign_ids_base.
    apply StronglySorted_impl_Forall
      with (R := row_le) (P := fun r => Model r <> None);
      [|apply Forall_forall|apply sort_rows_sorted].
    + intros a b Ha Hb. now apply row_le_key_ordered.
    + intros r Hr.
      apply (Permutation_in _ (sort_rows_Permutation _)) in Hr.
      now apply true_frames_rows in Hr.
  - rewrite Hf, assign_ids_base.
    apply StronglySorted_impl_Forall
      with (R := row_le) (P := fun r => Model r <> None);
      [|apply Forall_forall|apply sort_rows_sorted].
    + intros a b Ha Hb. now apply row_le_key_ordered.
    + intros r Hr.
      apply (Permutation_in _ (sort_rows_Permutation _)) in Hr.
      apply In_false_frames in Hr. tauto.
Qed.

(** Up to [S999] the identifiers are in the order of strings. *)
Lemma sample_ids_sorted_as_strings (n : nat) :
  (n <= 999)%nat -> StronglySorted str_lt (map sample_id (seq 1 n)).
Proof.
  intros Hn.
  apply StronglySorted_map with (R := fun a b => (a < b)%nat /\ (b <= 999)%nat).
  - intros a b [Hab Hb]. now apply str_lt_compare,
      sample_id_string_order_up_to_999.
  - apply StronglySorted_impl_Forall
      with (R := lt) (P := fun a => (a <= 999)%nat);
      [tauto| |apply seq_StronglySorted].
    apply Forall_forall. intros a Ha. apply in_seq in Ha. lia.
Qed.

(** C1, as the claim has it, fails on a table of a thousand samples:
    the sample after [S999] is [S1000], and as a string [S1000] comes
    before [S999]. *)
Lemma sample_ids_decrease_after_S999 :
  exists t f,
    create_samples reversing_state thousand_table = Ok (t, f) /\
    length t = 1%nat /\ length f = 999%nat /\
    nth_error (map Sample_ID (t ++ f)) 998 = Some (str_of "S999") /\
    nth_error (map Sample_ID (t ++ f)) 999 = Some (str_of "S1000") /\
    str_compare (str_of "S999") (str_of "S1000") = Gt /\
    ~ StronglySorted str_lt (map Sample_ID (t ++ f)).
Proof.
  assert (match create_samples reversing_state thousand_table with
          | Ok (t, f) => length t = 1%nat /\ length f = 999%nat
          | Raise _ => False
          end) as Hlen by (vm_compute; split; reflexivity).
  destruct (create_samples reversing_state thousand_table) as [[t f]|e] eqn:E;
    [|contradiction].
  destruct Hlen as [Ht Hf]. exists t, f.
  pose proof (create_samples_ids _ _ E) as Hids. rewrite Ht, Hf in Hids.
  assert (nth_error (map Sample_ID (t ++ f)) 998 = Some (str_of "S999")) as H1
    by (rewrite Hids; vm_compute; reflexivity).
  assert (nth_error (map Sample_ID (t ++ f)) 999 = Some (str_of "S1000")) as H2
    by (rewrite Hids; vm_compute; reflexivity).
  repeat (split; [first [reflexivity | assumption]|]).
  intros HS.
  assert (str_lt (str_of "S999") (str_of "S1000")) as Hlt
    by (apply (StronglySorted_nth_error (i := 998) (j := 999) HS);
        [lia|assumption..]).
  apply str_lt_compare in Hlt. discriminate Hlt.
Qed.

(** C1. [create_samples] returns both tables sorted by model
    ascending, exam type ascending and question type descending, and
    numbers them in one sequence: the correct table carries
    [S001 .. S<n>] in row order and the incorrect table goes on from
    [S<n+1>].  The identifiers are zero-padded to three digits; over
    the two tables together they are pairwise different, and in
    assignment order the numbers they carry are strictly increasing.
    As strings they are strictly increasing as long as there are at
    most 999 samples. *)
Theorem sample_ids_sequential_unique_and_numbered :
  forall (rng : RandomState) (df : DataFrame Row) (t f : list Sample),
    create_samples rng df = Ok (t, f) ->
    let ids := map Sample_ID (t ++ f) in
    StronglySorted key_ordered (map base t) /\
    StronglySorted key_ordered (map base f) /\
    map Sample_ID t = map sample_id (seq 1 (length t)) /\
    map Sample_ID f = map sample_id (seq (length t + 1) (length f)) /\
    ids = map sample_id (seq 1 (length t + length f)) /\
    NoDup ids /\
    StronglySorted id_lt ids /\
    ((length t + length f <= 999)%nat -> StronglySorted str_lt ids) /\
    Forall (fun id => (4 <= length id)%nat) ids /\
    sample_id 7 = str_of "S007".
Proof.
  intros rng df t f H.
  destruct (create_samples_key_ordered _ _ H) as [Hst Hsf].
  pose proof (create_samples_ids _ _ H) as Hids.
  apply create_samples_inv in H.
  destruct H as (rows & -> & _ & _ & Ht & Hf). cbv zeta.
  assert (map Sample_ID t = map sample_id (seq 1 (length t))) as Hit.
  { rewrite Ht at 1. rewrite assign_ids_ids. f_equal. f_equal.
    rewrite Ht. now rewrite assign_ids_length. }
  assert (map Sample_ID f = map sample_id (seq (length t + 1) (length f)))
    as Hif.
  { rewrite Hf at 1. rewrite assign_ids_ids. f_equal. f_equal.
    rewrite Hf. now rewrite assign_ids_length. }
  split; [exact Hst|]. split; [exact Hsf|].
  split; [exact Hit|]. split; [exact Hif|]. split; [exact Hids|].
  rewrite Hids.
  split; [apply sample_ids_NoDup|]. split; [apply sample_ids_increasing|].
  split; [apply sample_ids_sorted_as_strings|].
  split; [|reflexivity].
  apply Forall_forall. intros id Hid. apply in_map_iff in Hid.
  destruct Hid as (i & <- & _). unfold sample_id. rewrite length_app.
  pose proof (format_03d_length i). simpl. lia.
Qed.

Lemma sample_ids_sequential_unique_and_numbered_witness :
  exists t f,
    create_samples reversing_state example_table = Ok (t, f) /\
    map Sample_ID (t ++ f) =
    map str_of ["S001"; "S002"; "S003"; "S004"; "S005"]%string /\
    NoDup (map Sample_ID (t ++ f)) /\
    StronglySorted str_lt (map Sample_ID (t ++ f)).
Proof.
  destruct (create_samples reversing_state example_table) as [[t f]|e] eqn:E.
  - exists t, f. split; [reflexivity|].
    pose proof (sample_ids_sequential_unique_and_numbered _ _ E) as H.
    cbv zeta in H. destruct H as (_ & _ & _ & _ & Hids & Hnd & _ & Hstr & _).
    assert (length t + length f = 5)%nat as Hlen
      by (vm_compute in E; inversion E; reflexivity).
    split; [|split; [exact Hnd|apply Hstr; lia]].
    rewrite Hids, Hlen. reflexivity.
  - vm_compute in E. discriminate E.
Defined.

(** ** Reliability subset and rater batches *)

Lemma firstn_add {A} (n m : nat) (l : list A) :
  firstn (n + m) l = firstn n l ++ firstn m (skipn n l).
Proof.
  revert l. induction n as [|n IH]; intros l; [reflexivity|].
  destruct l as [|x l]; simpl.
  - now rewrite firstn_nil.
  - now rewrite IH.
Qed.

Lemma iloc_slice {A} (rows : list A) (start size : nat) :
  iloc rows start (start + size) = firstn size (skipn start rows).
Proof. unfold iloc. f_equal. lia. Qed.

Lemma iloc_length {A} (rows : list A) (start size : nat) :
  length (iloc rows start (start + size)) = Nat.min size (length rows - start).
Proof. now rewrite iloc_slice, length_firstn, length_skipn. Qed.

Lemma concat_slices {A} (rows : list A) (size k : nat) :
  concat (map (fun i => iloc rows (i * size) (i * size + size)) (seq 0 k)) =
  firstn (k * size) rows.
Proof.
  induction k as [|k IH]; [reflexivity|].
  rewrite seq_S, map_app, concat_app, IH. cbn [map concat plus].
  rewrite app_nil_r, iloc_slice.
  replace (S k * size)%nat with (k * size + size)%nat by lia.
  now rewrite firstn_add.
Qed.

Lemma export_batches_count (rater : list Rater.row) :
  length (export_batches rater) = (length rater / batch_size + 1)%nat.
Proof. unfold export_batches. now rewrite length_map, length_seq. Qed.

(** The batches are consecutive slices: put end to end they are the
    table. *)
Lemma export_batches_concat (rater : list Rater.row) :
  concat (export_batches rater) = rater.
Proof.
  unfold export_batches. rewrite concat_slices. apply firstn_all2.
  pose proof (Nat.div_mod_eq (length rater) batch_size) as E.
  pose proof (Nat.mod_upper_bound (length rater) batch_size) as B.
  unfold batch_size in *. lia.
Qed.

Lemma export_batches_nth (rater : list Rater.row) (i : nat)
    (b : list Rater.row) :
  nth_error (export_batches rater) i = Some b ->
  (i <= length rater / batch_size)%nat /\
  b = iloc rater (i * batch_size) (i * batch_size + batch_size).
Proof.
  unfold export_batches. intros H.
  rewrite nth_error_map, nth_error_seq in H.
  destruct (Nat.ltb_spec i (length rater / batch_size + 1));
    simpl in H; [|discriminate].
  inversion H. split; [lia|reflexivity].
Qed.

Lemma export_batches_sizes (rater : list Rater.row) :
  Forall (fun b => (length b <= batch_size)%nat) (export_batches rater) /\
  (forall i b,
      nth_error (export_batches rater) i = Some b ->
      (S i < length (export_batches rater))%nat ->
      length b = batch_size) /\
  (forall b,
      nth_error (export_batches rater) (length rater / batch_size) = Some b ->
      length b = (length rater mod batch_size)%nat).
Proof.
  pose proof (Nat.div_mod_eq (length rater) batch_size) as E.
  pose proof (Nat.mod_upper_bound (length rater) batch_size) as B.
  split; [|split].
  - apply Forall_forall. intros b Hb. apply In_nth_error in Hb.
    destruct Hb as [i Hi]. apply export_batches_nth in Hi.
    destruct Hi as [_ ->]. rewrite iloc_length. lia.
  - intros i b Hi Hlast. rewrite export_batches_count in Hlast.
    apply export_batches_nth in Hi. destruct Hi as [_ ->].
    rewrite iloc_length. unfold batch_size in *. nia.
  - intros b Hb. apply export_batches_nth in Hb. destruct Hb as [_ ->].
    rewrite iloc_length. unfold batch_size in *. lia.
Qed.

Lemma carve_out_In (samples : list Sample) (reliability : list Rater.row)
    (s : Sample) :
  In s (carve_out samples reliability) <->
  In s samples /\ ~ In (Sample_ID s) (map Rater.Sample_ID reliability).
Proof.
  unfold carve_out. rewrite filter_In, negb_true_iff.
  rewrite <- isin_In. now destruct (isin _ _).
Qed.

(** What the four cells produce when they all return. *)
Lemma rater_files_inv (rng : RandomState) (samples : list Sample)
    (reliability : list Rater.row) (batches : list (list Rater.row)) :
  rater_files rng samples = Ok (reliability, batches) ->
  exists picked shuffled,
    sample rng samples 30 1 = Ok picked /\
    reliability = map rater_columns picked /\
    Permutation shuffled (map rater_columns (carve_out samples reliability)) /\
    batches = export_batches shuffled.
Proof.
  unfold rater_files, reliability_cell, shuffle_cell. intros H.
  bind_inv H. bind_inv E. inversion E; subst a. clear E.
  bind_inv H. bind_inv E. inversion E; subst a. clear E.
  inversion H; subst. exists a0, (map rater_columns a1).
  split; [assumption|]. split; [reflexivity|]. split; [|reflexivity].
  apply Permutation_map.
  destruct (sample_all_Permutation rng
              (carve_out samples (map rater_columns a0)) 77) as (s & Es & Hs).
  congruence.
Qed.

Lemma rater_files_returns (rng : RandomState) (samples : list Sample) :
  (30 <= length samples)%nat ->
  exists reliability batches,
    rater_files rng samples = Ok (reliability, batches).
Proof.
  intros H. unfold rater_files, reliability_cell, shuffle_cell.
  rewrite sample_eq by assumption. cbn [bind].
  match goal with
  | |- context [sample_all rng ?l 77] =>
      destruct (sample_all_Permutation rng l 77) as (s & -> & _)
  end.
  cbn [bind]. eauto.
Qed.

(** The reliability cell asks for 30 rows whatever the table holds. *)
Lemma rater_files_raises (rng : RandomState) (samples : list Sample) :
  (length samples < 30)%nat -> rater_files rng samples = Raise ValueError.
Proof.
  intros H. unfold rater_files, reliability_cell.
  now rewrite sample_too_large.
Qed.

(** C2. When the reliability and rater cells return, the reliability
    file has 30 rows and no identifier in it appears in any batch
    file: the rows set aside are removed from the sample table by
    their identifier before the rest is shuffled and cut. *)
Theorem reliability_and_batches_disjoint :
  forall (rng : RandomState) (samples : list Sample)
         (reliability : list Rater.row) (batches : list (list Rater.row)),
    rater_files rng samples = Ok (reliability, batches) ->
    length reliability = 30%nat /\
    (forall b r, In b batches -> In r b ->
                 ~ In (Rater.Sample_ID r) (map Rater.Sample_ID reliability)) /\
    (forall b r, In b batches -> In r b ->
                 exists s, In s samples /\ r = rater_columns s).
Proof.
  intros rng samples reliability batches H.
  apply rater_files_inv in H.
  destruct H as (picked & shuffled & Hp & -> & Hperm & ->).
  apply sample_inv in Hp. destruct Hp as (_ & Hlen & _).
  split; [now rewrite length_map|].
  assert (forall b r, In b (export_batches shuffled) -> In r b ->
            exists s, In s (carve_out samples (map rater_columns picked)) /\
                      r = rater_columns s) as Hsrc.
  { intros b r Hb Hr.
    assert (In r (concat (export_batches shuffled))) as Hc
      by (apply in_concat; eauto).
    rewrite export_batches_concat in Hc.
    apply (Permutation_in _ Hperm), in_map_iff in Hc.
    destruct Hc as (s & <- & Hs). eauto. }
  split; intros b r Hb Hr; destruct (Hsrc b r Hb Hr) as (s & Hs & ->);
    apply carve_out_In in Hs; destruct Hs as [Hin Hnot].
  - exact Hnot.
  - eauto.
Qed.

Lemma reliability_and_batches_disjoint_witness :
  exists reliability batches,
    rater_files reversing_state (example_samples 35) = Ok (reliability, batches) /\
    length reliability = 30%nat /\
    (forall b r, In b batches -> In r b ->
                 ~ In (Rater.Sample_ID r) (map Rater.Sample_ID reliability)).
Proof.
  destruct (rater_files reversing_state (example_samples 35))
    as [[reliability batches]|e] eqn:E.
  - exists reliability, batches. split; [reflexivity|].
    pose proof (reliability_and_batches_disjoint _ _ E) as (Hl & Hd & _).
    now split.
  - vm_compute in E. discriminate E.
Defined.

(** C9, as the code has it. The rows left after the carve-out are
    shuffled and cut into consecutive slices of 100 rows: the batch
    files put end to end are the shuffled table, which holds every
    remaining row exactly as often as the sample table does, so each
    such row is in exactly one batch.  No batch has more than 100 rows
    and every batch but the last has exactly 100. *)
Theorem batches_partition_remaining_rows :
  forall (rng : RandomState) (samples : list Sample)
         (reliability : list Rater.row) (batches : list (list Rater.row)),
    rater_files rng samples = Ok (reliability, batches) ->
    let remaining := map rater_columns (carve_out samples reliability) in
    (exists shuffled,
        shuffle_cell rng (carve_out samples reliability) = Ok shuffled /\
        Permutation shuffled remaining /\
        batches = export_batches shuffled /\
        concat batches = shuffled) /\
    Permutation (concat batches) remaining /\
    Forall (fun b => (length b <= 100)%nat) batches /\
    (forall i b, nth_error batches i = Some b ->
                 (S i < length batches)%nat -> length b = 100%nat).
Proof.
  intros rng samples reliability batches H. cbv zeta.
  pose proof (rater_files_inv _ _ H) as (picked & shuffled & _ & _ & Hperm & Hb).
  unfold rater_files in H. bind_inv H. bind_inv H. inversion H; subst.
  clear H. rename a0 into shuffled'.
  pose proof (export_batches_sizes shuffled') as (Hmax & Hfull & _).
  split; [|split; [|split]].
  - exists shuffled'. split; [assumption|].
    rewrite export_batches_concat. repeat split.
    unfold shuffle_cell in E0. bind_inv E0. inversion E0; subst.
    apply Permutation_map.
    destruct (sample_all_Permutation rng (carve_out samples reliability) 77)
      as (s & Es & Hs).
    congruence.
  - rewrite export_batches_concat.
    unfold shuffle_cell in E0. bind_inv E0. inversion E0; subst.
    apply Permutation_map.
    destruct (sample_all_Permutation rng (carve_out samples reliability) 77)
      as (s & Es & Hs).
    congruence.
  - exact Hmax.
  - exact Hfull.
Qed.

Lemma batches_partition_remaining_rows_witness :
  exists reliability batches,
    rater_files reversing_state (example_samples 135) = Ok (reliability, batches) /\
    map (@length Rater.row) batches = [100; 5]%nat /\
    Permutation (concat batches)
                (map rater_columns
                     (carve_out (example_samples 135) reliability)).
Proof.
  destruct (rater_files reversing_state (example_samples 135))
    as [[reliability batches]|e] eqn:E.
  - exists reliability, batches. split; [reflexivity|].
    pose proof (batches_partition_remaining_rows _ _ E) as (_ & Hp & _).
    split; [|exact Hp].
    vm_compute in E. inversion E. reflexivity.
  - vm_compute in E. discriminate E.
Defined.

(** C9, as the spec states it, fails: from 135 samples, 105 rows remain
    after the carve-out and the second batch file has 5 rows, not 100. *)
Lemma last_batch_is_not_full :
  exists reliability batches b,
    rater_files reversing_state (example_samples 135) = Ok (reliability, batches) /\
    In b batches /\ length b = 5%nat /\ length b <> 100%nat.
Proof.
  destruct (rater_files reversing_state (example_samples 135))
    as [[reliability batches]|e] eqn:E.
  - exists reliability, batches.
    vm_compute in E. inversion E; subst. clear E.
    eexists. split; [reflexivity|]. split; [right; left; reflexivity|].
    split; [reflexivity|discriminate].
  - vm_compute in E. discriminate E.
Qed.

(** The last batch holds what is left over, which is nothing when the
    number of rows is a multiple of 100. *)
Lemma last_batch_size (rater : list Rater.row) :
  exists b,
    nth_error (export_batches rater) (length rater / 100) = Some b /\
    length b = (length rater mod 100)%nat.
Proof.
  destruct (nth_error (export_batches rater) (length rater / 100)) as [b|] eqn:E.
  - exists b. split; [reflexivity|].
    now apply (proj2 (proj2 (export_batches_sizes rater))).
  - apply nth_error_None in E. rewrite export_batches_count in E.
    unfold batch_size in E. lia.
Qed.

(** ** The cells in sequence *)

Section NotebookProperties.
Context {U : UnicodeData}.

Lemma load_no_files : load_and_process_files [] = Ok Blank.
Proof. reflexivity. Qed.

Lemma create_samples_blank (rng : RandomState) :
  create_samples rng Blank = Raise KeyError.
Proof. reflexivity. Qed.

Lemma load_one_correct_file :
  load_and_process_files [one_correct_file] =
  Ok (Table [with_confidence (85 # 1)
               (result_row "qwen" "policy" "single" (str_of "B") "B")]).
Proof. reflexivity. Qed.

Lemma load_example_file :
  load_and_process_files [example_file] =
  Ok (Table [with_confidence (85 # 1)
               (result_row "qwen" "policy" "single" (str_of "a") "A");
             with_confidence (85 # 1)
               (result_row "qwen" "policy" "single" (str_of "AB") "AB")]).
Proof. reflexivity. Qed.

(** C10 at three inputs.  With no input file, loading returns the
    blank table and the sampling cell then raises [KeyError].  With a
    file whose only answer is correct, the sampling cell raises
    [KeyError] when it sorts the blank table of incorrect answers.
    With a file of one correct and one incorrect answer, sampling
    returns and the reliability cell raises [ValueError], as it asks
    for 30 rows of a one-row table. *)
Theorem notebook_raises_on_small_inputs :
  forall rng : RandomState,
    load_and_process_files [] = Ok Blank /\
    notebook rng [] = Raise KeyError /\
    notebook rng [one_correct_file] = Raise KeyError /\
    (exists t f,
        (df <- load_and_process_files [example_file] ;; create_samples rng df)
        = Ok (t, f) /\
        length t = 1%nat /\ length f = 1%nat) /\
    notebook rng [example_file] = Raise ValueError.
Proof.
  intros rng. split; [reflexivity|]. split; [reflexivity|]. split.
  - unfold notebook. rewrite load_one_correct_file. cbn [bind].
    rewrite create_samples_raises; [reflexivity| |reflexivity].
    right. intros r [<-|[]]. now left.
  - unfold notebook. rewrite load_example_file. cbn [bind].
    rewrite create_samples_eq.
    match goal with
    | |- context [str_accessor ?c] => change (str_accessor c) with (Ok tt)
    end.
    cbn [bind]. cbv zeta.
    set (rows := [with_confidence (85 # 1)
                    (result_row "qwen" "policy" "single" (str_of "a") "A");
                  with_confidence (85 # 1)
                    (result_row "qwen" "policy" "single" (str_of "AB") "AB")]).
    change (true_frames rng rows (unique (map Model rows)))
      with [true_frame rng rows (Some (str_of "qwen"))].
    change (false_frames rows (unique (map Model rows)))
      with [[with_confidence (85 # 1)
               (result_row "qwen" "policy" "single" (str_of "a") "A")]].
    assert (length (assign_ids 1 (sort_rows
              (concat [true_frame rng rows (Some (str_of "qwen"))]))) = 1%nat)
      as Ht.
    { rewrite assign_ids_length.
      rewrite (Permutation_length (sort_rows_Permutation _)).
      cbn [concat]. rewrite app_nil_r. now rewrite true_frame_length. }
    split.
    + eexists. eexists. split; [reflexivity|]. split; [exact Ht|].
      now rewrite assign_ids_length.
    + cbn [bind fst snd]. rewrite rater_files_raises; [reflexivity|].
      rewrite Ht. lia.
Qed.
End NotebookProperties.

(** When every cell before it returned and both sample tables hold at
    least 30 rows, the rest of the notebook returns too. *)
Lemma notebook_returns {U : UnicodeData} (rng : RandomState)
    (csv_files : list CsvFile) (df : DataFrame Row) (t f : list Sample) :
  load_and_process_files csv_files = Ok df ->
  create_samples rng df = Ok (t, f) ->
  (30 <= length t)%nat -> (30 <= length f)%nat ->
  exists out, notebook rng csv_files = Ok out.
Proof.
  intros Hl Hc Ht Hf. unfold notebook. rewrite Hl. cbn [bind]. rewrite Hc.
  cbn [bind fst snd].
  destruct (rater_files_returns rng t Ht) as (rt & bt & ->).
  destruct (rater_files_returns rng f Hf) as (rf & bf & ->).
  cbn [bind]. eauto.
Qed.

(** A file name of six parts whose last part is [condition] is not
    skipped: the look-up of the part after it raises. *)
Lemma load_raises_on_trailing_condition {U : UnicodeData} :
  load_and_process_files
    [{| path := str_of "results_policy_qwen_x_y_condition.csv";
        contents := [] |}] = Raise IndexError.
Proof. reflexivity. Qed.

(* ================================================================== *)
(** * Further properties of the cells *)

(** ** Cleaning *)

Lemma filter_idempotent {A} (P : A -> bool) (l : list A) :
  filter P (filter P l) = filter P l.
Proof. apply filter_all, Forall_filter_true. Qed.

Lemma count_occ_split (sep : N) (s : pystr) :
  length (str_split sep s) = S (count_occ N.eq_dec s sep).
Proof.
  induction s as [|c s IH]; [reflexivity|].
  cbn [str_split count_occ].
  destruct (N.eqb_spec c sep) as [->|Hne].
  - destruct (N.eq_dec sep sep); [|congruence]. simpl. now rewrite IH.
  - destruct (N.eq_dec c sep); [congruence|].
    destruct (str_split sep s) as [|h r]; [discriminate IH|]. exact IH.
Qed.

Section MoreCleaningProperties.
Context {U : UnicodeData}.

(** X1. Cleaning an answer twice is the same as cleaning it once, and
    the answers that cleaning leaves unchanged are exactly the missing
    one and the strings of letters. *)
Theorem clean_answer_idempotent :
  (forall c : cell, clean_answer (clean_answer c) = clean_answer c) /\
  (forall c : cell, clean_answer c = c <-> letters_only c).
Proof.
  split.
  - intros [s|]; [|reflexivity].
    now rewrite !clean_answer_some, filter_idempotent.
  - intros [s|]; [|simpl; tauto]. rewrite clean_answer_some. simpl. split.
    + intros H. injection H as H. rewrite <- H. apply Forall_filter_true.
    + intros H. f_equal. now apply filter_all.
Qed.

Lemma float_of_decimal_nonneg (n : N) (k : nat) :
  float_nonneg (float_of_decimal n k).
Proof.
  unfold float_of_decimal.
  destruct (float_overflow * Z.pos (pow10 k) <=? Z.of_N n)%Z;
    [reflexivity|].
  unfold float_nonneg, Qle. simpl. lia.
Qed.

Lemma float_of_str_nonneg (s : pystr) (v : pyfloat) :
  float_of_str s = Ok v -> float_nonneg v.
Proof.
  unfold float_of_str.
  destruct (str_split dot s) as [|ip [|fp [|x r]]]; try discriminate.
  - destruct ip as [|c t]; [discriminate|].
    destruct (digits_value 0 (c :: t)) as [n|]; [|discriminate].
    intros H. inversion H. apply float_of_decimal_nonneg.
  - destruct (ip ++ fp) as [|c t]; [discriminate|].
    destruct (digits_value 0 (c :: t)) as [n|]; [|discriminate].
    intros H. inversion H. apply float_of_decimal_nonneg.
Qed.

(** X3. From text, [clean_confidence_value] never returns a negative
    number: a sign is not a digit or a point, so it is dropped with
    the other characters before [float] reads the rest.  What it
    returns is a number that is not negative, or positive infinity
    when the digits are too many for a double. *)
Theorem clean_confidence_value_drops_sign :
  forall (s : pystr) (v : pyfloat),
    clean_confidence_value (CStr s) = Ok (Some v) ->
    match v with
    | Finite q => (0 <= q)%Q
    | Infinite negative => negative = false
    end.
Proof.
  intros s v. rewrite clean_confidence_value_str.
  destruct (float_of_str (numeric_part s)) as [v'|e] eqn:E; [|discriminate].
  intros H. inversion H; subst.
  apply (float_of_str_nonneg (numeric_part s)), E.
Qed.

Lemma str_split_dots (s : pystr) :
  Forall (fun c => c = dot) s ->
  Forall (fun part => part = []) (str_split dot s).
Proof.
  induction 1 as [|c s Hc _ IH]; [repeat constructor|].
  subst c. cbn [str_split]. rewrite N.eqb_refl. now constructor.
Qed.

Lemma float_of_str_dots (s : pystr) :
  Forall (fun c => c = dot) s -> float_of_str s = Raise ValueError.
Proof.
  intros H. apply str_split_dots in H. unfold float_of_str.
  destruct (str_split dot s) as [|ip [|fp [|x r]]]; try reflexivity.
  - inversion H; subst. reflexivity.
  - inversion H as [|? ? Hip H']; subst. inversion H'; subst. reflexivity.
Qed.

Lemma float_of_str_two_dots (s : pystr) :
  (2 <= count_occ N.eq_dec s dot)%nat -> float_of_str s = Raise ValueError.
Proof.
  intros H. unfold float_of_str.
  pose proof (count_occ_split dot s) as L.
  destruct (str_split dot s) as [|ip [|fp [|x r]]]; try reflexivity;
    simpl in L; lia.
Qed.

Lemma count_occ_filter_keep {A} (dec : forall x y : A, {x = y} + {x <> y})
    (P : A -> bool) (l : list A) (x : A) :
  P x = true -> count_occ dec (filter P l) x = count_occ dec l x.
Proof.
  intros Hx. induction l as [|y l IH]; [reflexivity|]. simpl.
  destruct (P y) eqn:Ey; simpl; destruct (dec y x) as [->|Hne];
    try congruence.
Qed.

(** X4. Text in which no character is a digit, and text with two or
    more points, both clean to a missing confidence. *)
Theorem clean_confidence_value_missing_cases :
  forall s : pystr,
    (forall c, In c s -> isdigit c = false) \/
    (2 <= count_occ N.eq_dec s dot)%nat ->
    clean_confidence_value (CStr s) = Ok None.
Proof.
  intros s H. rewrite clean_confidence_value_str.
  destruct H as [H|H].
  - rewrite float_of_str_dots; [reflexivity|].
    unfold numeric_part. apply Forall_forall. intros c Hc.
    apply filter_In in Hc. destruct Hc as [Hin Hc].
    rewrite (H c Hin) in Hc. simpl in Hc. now apply N.eqb_eq.
  - rewrite float_of_str_two_dots; [reflexivity|].
    unfold numeric_part. rewrite count_occ_filter_keep; [assumption|].
    rewrite N.eqb_refl. apply orb_true_r.
Qed.
End MoreCleaningProperties.

Lemma clean_confidence_value_drops_sign_witness :
  @clean_confidence_value ascii_only (CStr (str_of "-85%"))
  = Ok (Some (Finite (85 # 1))) /\
  (0 <= 85 # 1)%Q.
Proof.
  split; [reflexivity|].
  apply (@clean_confidence_value_drops_sign ascii_only (str_of "-85%")
           (Finite (85 # 1))).
  reflexivity.
Defined.

Lemma clean_confidence_value_missing_cases_witness :
  @clean_confidence_value ascii_only (CStr (str_of "n/a")) = Ok None /\
  @clean_confidence_value ascii_only (CStr (str_of "v1.2.3")) = Ok None.
Proof.
  split.
  - apply (@clean_confidence_value_missing_cases ascii_only). left.
    intros c Hc. simpl in Hc.
    repeat (destruct Hc as [<-|Hc]; [reflexivity|]). contradiction.
  - apply (@clean_confidence_value_missing_cases ascii_only). right.
    vm_compute. lia.
Defined.

(** ** Loading, file by file *)

Lemma list_index_raises (x : pystr) (l : list pystr) (e : exn) :
  list_index x l = Raise e -> e = ValueError.
Proof.
  induction l as [|y l IH]; simpl; [congruence|].
  destruct (str_eqb y x); [discriminate|].
  destruct (list_index x l); simpl; [discriminate|]. intros H. apply IH.
  congruence.
Qed.

Lemma list_index_found (x : pystr) (l : list pystr) (i : nat) :
  list_index x l = Ok i -> nth_error l i = Some x.
Proof.
  revert i. induction l as [|y l IH]; simpl; intros i; [discriminate|].
  destruct (str_eqb y x) eqn:E.
  - intros H. inversion H. apply str_eqb_eq in E. now subst.
  - destruct (list_index x l) as [j|]; simpl; [|discriminate].
    intros H. inversion H. simpl. now apply IH.
Qed.

Section FileProperties.
Context {U : UnicodeData}.

Lemma process_rows_ok (c e q : pystr) (raws : list Raw.row)
    (rows : list Row) :
  process_rows c e q raws = Ok rows ->
  map untouched rows = map untouched_raw raws /\
  map Model_Answer rows = map (fun r => clean_answer (Raw.Model_Answer r)) raws /\
  map Correct_Answer rows =
    map (fun r => clean_answer (Raw.Correct_Answer r)) raws /\
  Forall (fun r => Condition r = c /\ Exam_Type r = e /\ Question_Type r = q)
         rows.
Proof.
  revert rows. induction raws as [|raw raws IH]; intros rows H.
  - inversion H. repeat split. constructor.
  - cbn [process_rows] in H. bind_inv H. bind_inv H.
    inversion H; subst. clear H. unfold process_row in E. bind_inv E.
    inversion E; subst. clear E.
    destruct (IH _ E0) as (Hu & Hm & Hc & Hn).
    cbn [map]. rewrite Hu, Hm, Hc.
    repeat split. constructor; [now repeat split | exact Hn].
Qed.

(** The rows of a file are cleaned unless a confidence cell overflows. *)
Lemma process_rows_cases (c e q : pystr) (raws : list Raw.row) :
  (exists rows, process_rows c e q raws = Ok rows /\
                existsb (fun r => overflows (Raw.Model_Confidence r)) raws
                = false) \/
  (process_rows c e q raws = Raise OverflowError /\
   existsb (fun r => overflows (Raw.Model_Confidence r)) raws = true).
Proof.
  induction raws as [|raw raws IH].
  - left. now exists [].
  - cbn [process_rows existsb]. unfold process_row.
    destruct (clean_confidence_value_cases (Raw.Model_Confidence raw))
      as [(v & -> & ->)|[-> ->]]; cbn [bind orb]; [|now right].
    destruct IH as [(rows & -> & ->)|[-> ->]]; cbn [bind]; [left|right]; eauto.
Qed.

(** The body of the loop, by the shape of the file name. *)
Lemma process_file_eq (file : CsvFile) :
  process_file file =
  match name_parts file with
  | [p0; p1; p2; p3; p4; p5] =>
      match list_index (str_of "condition") (name_parts file) with
      | Raise _ => Ok None
      | Ok i =>
          match nth_error (name_parts file) (i + 1) with
          | None => Raise IndexError
          | Some num =>
              if str_eqb num (str_of "1")
              then df <- process_rows (p3 ++ p4) p1 p5 (contents file) ;;
                   Ok (Some df)
              else Ok None
          end
      end
  | _ => Ok None
  end.
Proof.
  unfold process_file. fold (name_parts file).
  destruct (name_parts file)
    as [|p0 [|p1 [|p2 [|p3 [|p4 [|p5 [|p6 rest]]]]]]] eqn:Ep;
    try reflexivity.
  cbn [length Nat.eqb negb getitem nth_error bind].
  destruct (list_index (str_of "condition") [p0; p1; p2; p3; p4; p5])
    as [i|e] eqn:Ei.
  - cbn [bind]. unfold getitem.
    destruct (nth_error [p0; p1; p2; p3; p4; p5] (i + 1)) as [num|];
      [|reflexivity].
    cbn [bind try_except]. now destruct (str_eqb num (str_of "1")).
  - apply list_index_raises in Ei. subst e. reflexivity.
Qed.

Lemma process_file_cases (file : CsvFile) :
  (exists r, process_file file = Ok r /\
             condition_is_last_part file = false /\
             overflowing file = false) \/
  (process_file file = Raise IndexError /\
   condition_is_last_part file = true /\ overflowing file = false) \/
  (process_file file = Raise OverflowError /\
   condition_is_last_part file = false /\ overflowing file = true).
Proof.
  rewrite process_file_eq.
  unfold condition_is_last_part, overflowing, is_condition1_file.
  destruct (name_parts file)
    as [|p0 [|p1 [|p2 [|p3 [|p4 [|p5 [|p6 rest]]]]]]] eqn:Ep;
    try (left; eexists; repeat split; reflexivity).
  cbn [length Nat.eqb andb].
  destruct (list_index (str_of "condition") [p0; p1; p2; p3; p4; p5])
    as [i|e'] eqn:Ei; [|left; eexists; repeat split; reflexivity].
  assert (i < 6)%nat as Hi.
  { apply list_index_found in Ei.
    assert (nth_error [p0; p1; p2; p3; p4; p5] i <> None) as H by congruence.
    apply nth_error_Some in H. exact H. }
  destruct (process_rows_cases (p3 ++ p4) p1 p5 (contents file))
    as [(rows & -> & ->)|[-> ->]]; cbn [bind];
    (destruct i as [|[|[|[|[|[|i]]]]]]; cbn [Nat.add nth_error]; [..|lia];
     try (destruct (str_eqb _ _);
          solve [ left; eexists; repeat split; reflexivity
                | right; right; repeat split; reflexivity ]);
     right; left; repeat split; reflexivity).
Qed.
End FileProperties.

Section LoadProperties.
Context {U : UnicodeData}.

(** The frames the loop has collected are only ever extended. *)
Lemma load_loop_acc (csv_files : list CsvFile) (dfs : list (list Row)) :
  load_loop csv_files dfs =
  (new <- load_loop csv_files [] ;; Ok (dfs ++ new)).
Proof.
  revert dfs. induction csv_files as [|file rest IH]; intros dfs.
  - simpl. now rewrite app_nil_r.
  - cbn [load_loop]. destruct (process_file file) as [[df|]|e]; cbn [bind].
    + rewrite (IH (dfs ++ [df])), (IH ([] ++ [df])).
      destruct (load_loop rest []) as [new|e]; cbn [bind]; [|reflexivity].
      now rewrite <- app_assoc.
    + apply IH.
    + reflexivity.
Qed.

Lemma load_loop_app (a b : list CsvFile) (dfs : list (list Row)) :
  load_loop (a ++ b) dfs = (d <- load_loop a dfs ;; load_loop b d).
Proof.
  revert dfs. induction a as [|file rest IH]; intros dfs; [reflexivity|].
  cbn [app load_loop]. destruct (process_file file) as [[df|]|e]; cbn [bind];
    [apply IH | apply IH | reflexivity].
Qed.

Lemma load_loop_returns_iff (csv_files : list CsvFile)
    (dfs : list (list Row)) :
  (exists out, load_loop csv_files dfs = Ok out) <->
  Forall (fun f => condition_is_last_part f = false /\ overflowing f = false)
         csv_files.
Proof.
  revert dfs. induction csv_files as [|file rest IH]; intros dfs.
  - split; [constructor|]. intros _. now exists dfs.
  - cbn [load_loop].
    destruct (process_file_cases file)
      as [(r & -> & Hc & Ho)|[(-> & Hc & Ho)|(-> & Hc & Ho)]]; cbn [bind].
    + assert (exists dfs', (match r with
                            | Some df => load_loop rest (dfs ++ [df])
                            | None => load_loop rest dfs
                            end) = load_loop rest dfs') as [dfs' ->]
        by (destruct r; eauto).
      rewrite IH. split; [now constructor|]. intros H. now inversion H.
    + split; [intros [out H]; discriminate H|].
      intros H. inversion H; subst. intuition congruence.
    + split; [intros [out H]; discriminate H|].
      intros H. inversion H; subst. intuition congruence.
Qed.

(** The loop raises what the first file that cannot be processed
    raises. *)
Lemma load_loop_raises_iff (csv_files : list CsvFile) (dfs : list (list Row))
    (e : exn) :
  load_loop csv_files dfs = Raise e <->
  exists a file b,
    csv_files = a ++ file :: b /\
    (forall f, In f a ->
               condition_is_last_part f = false /\ overflowing f = false) /\
    ((e = IndexError /\ condition_is_last_part file = true) \/
     (e = OverflowError /\ overflowing file = true)).
Proof.
  revert dfs. induction csv_files as [|file rest IH]; intros dfs.
  - split; [discriminate|]. intros (a & f & b & H & _).
    now destruct a.
  - cbn [load_loop].
    destruct (process_file_cases file)
      as [(r & -> & Hc & Ho)|[(-> & Hc & Ho)|(-> & Hc & Ho)]]; cbn [bind].
    + assert (exists dfs', (match r with
                            | Some df => load_loop rest (dfs ++ [df])
                            | None => load_loop rest dfs
                            end) = load_loop rest dfs') as [dfs' ->]
        by (destruct r; eauto).
      rewrite IH. split.
      * intros (a & f & b & -> & Ha & He). exists (file :: a), f, b.
        split; [reflexivity|]. split; [|exact He].
        intros f' [<-|Hin]; [now split | now apply Ha].
      * intros (a & f & b & Heq & Ha & He). destruct a as [|f' a].
        -- inversion Heq; subst. intuition congruence.
        -- inversion Heq; subst. exists a, f, b.
           split; [reflexivity|]. split; [|exact He].
           intros f'' Hin. apply Ha. now right.
    + split.
      * intros H. inversion H; subst. exists [], file, rest.
        split; [reflexivity|]. split; [intros f []|]. now left.
      * intros (a & f & b & Heq & Ha & He). destruct a as [|f' a].
        -- inversion Heq; subst. intuition congruence.
        -- inversion Heq; subst.
           destruct (Ha f' (or_introl eq_refl)). congruence.
    + split.
      * intros H. inversion H; subst. exists [], file, rest.
        split; [reflexivity|]. split; [intros f []|]. now right.
      * intros (a & f & b & Heq & Ha & He). destruct a as [|f' a].
        -- inversion Heq; subst. intuition congruence.
        -- inversion Heq; subst.
           destruct (Ha f' (or_introl eq_refl)). congruence.
Qed.

Lemma load_loop_returns_files (csv_files : list CsvFile)
    (dfs out : list (list Row)) :
  load_loop csv_files dfs = Ok out ->
  Forall (fun f => exists r, process_file f = Ok r) csv_files.
Proof.
  revert dfs. induction csv_files as [|file rest IH]; intros dfs H;
    [constructor|].
  cbn [load_loop] in H. bind_inv H.
  constructor; [eauto|]. destruct a; eapply IH; eassumption.
Qed.

(** X5. On files that have the columns the loader reads,
    [load_and_process_files] can raise only [IndexError] or
    [OverflowError].  It raises what the first file that cannot be
    processed raises: [IndexError] for a six-part name whose first
    part [condition] is the last part, so that no part follows it, and
    [OverflowError] for a file that is read and has a confidence cell
    holding an integer too large for a double.  With no such file it
    returns a table.  The file [huge_confidence_file] raises
    [OverflowError]. *)
Theorem load_raises_on_trailing_condition_or_overflow :
  forall csv_files : list CsvFile,
    (forall e, load_and_process_files csv_files = Raise e ->
               e = IndexError \/ e = OverflowError) /\
    (forall e,
       load_and_process_files csv_files = Raise e <->
       exists a file b,
         csv_files = a ++ file :: b /\
         (forall f, In f a ->
                    condition_is_last_part f = false /\
                    overflowing f = false) /\
         ((e = IndexError /\ condition_is_last_part file = true) \/
          (e = OverflowError /\ overflowing file = true))) /\
    ((exists df, load_and_process_files csv_files = Ok df) <->
     forall file, In file csv_files ->
                  condition_is_last_part file = false /\
                  overflowing file = false) /\
    load_and_process_files [huge_confidence_file] = Raise OverflowError.
Proof.
  intros csv_files.
  assert (forall e, load_and_process_files csv_files = Raise e <->
                    load_loop csv_files [] = Raise e) as Hr.
  { intros e. unfold load_and_process_files.
    destruct (load_loop csv_files []); cbn [bind]; [split; discriminate|].
    split; intros H; inversion H; reflexivity. }
  split; [|split; [|split]].
  - intros e He. apply Hr, load_loop_raises_iff in He.
    destruct He as (_ & _ & _ & _ & _ & [[-> _]|[-> _]]); auto.
  - intros e. rewrite Hr. apply load_loop_raises_iff.
  - rewrite <- Forall_forall, <- (load_loop_returns_iff csv_files []).
    unfold load_and_process_files.
    destruct (load_loop csv_files []); cbn [bind].
    + split; eauto.
    + split; intros [? H]; discriminate H.
  - now vm_compute.
Qed.

(** X6. Loading goes file by file: the rows loaded from one list of
    files followed by another are the rows of the first list followed
    by the rows of the second. *)
Theorem load_appends_file_lists :
  forall (a b : list CsvFile) (dfa dfb : DataFrame Row),
    load_and_process_files a = Ok dfa ->
    load_and_process_files b = Ok dfb ->
    exists df,
      load_and_process_files (a ++ b) = Ok df /\
      frame_rows df = frame_rows dfa ++ frame_rows dfb.
Proof.
  intros a b dfa dfb Ha Hb. unfold load_and_process_files in *.
  bind_inv Ha. bind_inv Hb. inversion Ha; inversion Hb; subst. clear Ha Hb.
  rewrite load_loop_app, E. cbn [bind]. rewrite load_loop_acc, E0. cbn [bind].
  eexists. split; [reflexivity|].
  now rewrite !frame_rows_concat_or_blank, concat_app.
Qed.

Lemma load_loop_nil_iff (csv_files : list CsvFile) (new : list (list Row)) :
  load_loop csv_files [] = Ok new ->
  (new = [] <-> Forall (fun f => process_file f = Ok None) csv_files).
Proof.
  revert new. induction csv_files as [|file rest IH]; intros new H.
  - inversion H. split; [constructor|reflexivity].
  - cbn [load_loop] in H. bind_inv H. destruct a as [df|].
    + rewrite load_loop_acc in H. bind_inv H. inversion H; subst. split.
      * discriminate.
      * intros Hall. inversion Hall; subst. congruence.
    + rewrite (IH new H). split.
      * intros Hall. now constructor.
      * intros Hall. now inversion Hall.
Qed.

(** X7. The loader returns the blank [pd.DataFrame()], which has no
    columns, exactly when every file was skipped; once a file is
    accepted the result is a table with the result columns, even if
    that file has no rows. *)
Theorem load_blank_iff_every_file_skipped :
  forall (csv_files : list CsvFile) (df : DataFrame Row),
    load_and_process_files csv_files = Ok df ->
    (df = Blank <-> Forall (fun f => process_file f = Ok None) csv_files) /\
    (forall rows, df = Table rows ->
                  exists file df', In file csv_files /\
                                   process_file file = Ok (Some df')).
Proof.
  intros csv_files df H. unfold load_and_process_files in H. bind_inv H.
  inversion H; subst. clear H.
  pose proof (load_loop_nil_iff _ E) as Hnil. split.
  - rewrite <- Hnil. destruct a; simpl; split; congruence.
  - intros rows Hrows.
    assert (a <> []) as Hne by (intros ->; discriminate Hrows).
    assert (~ Forall (fun f => process_file f = Ok None) csv_files) as Hnot
      by (intros Hall; now apply Hnil in Hall).
    apply neg_Forall_Exists_neg in Hnot.
    + apply Exists_exists in Hnot. destruct Hnot as (file & Hin & Hf).
      pose proof (load_loop_returns_files _ _ E) as Hall.
      rewrite Forall_forall in Hall. destruct (Hall file Hin) as [r Er].
      destruct r as [df'|]; [eauto|contradiction].
    + intros f. destruct (process_file f) as [[d|]|e];
        [right|left|right]; congruence.
Qed.

(** X8. An accepted file gives one record per row, in the order of the
    file: the columns that loading does not touch are unchanged, the
    two answers are the cleaned answers of the row, and the exam type,
    the question type and the condition are the second, the sixth, and
    the fourth and fifth part of the file name. *)
Theorem accepted_file_keeps_rows_in_order :
  forall (file : CsvFile) (df : list Row),
    process_file file = Ok (Some df) ->
    length df = length (contents file) /\
    map untouched df = map untouched_raw (contents file) /\
    map Model_Answer df =
      map (fun r => clean_answer (Raw.Model_Answer r)) (contents file) /\
    map Correct_Answer df =
      map (fun r => clean_answer (Raw.Correct_Answer r)) (contents file) /\
    exists p0 p1 p2 p3 p4 p5,
      name_parts file = [p0; p1; p2; p3; p4; p5] /\
      Forall (fun r => Exam_Type r = p1 /\ Question_Type r = p5 /\
                       Condition r = p3 ++ p4) df.
Proof.
  intros file df. rewrite process_file_eq.
  destruct (name_parts file)
    as [|p0 [|p1 [|p2 [|p3 [|p4 [|p5 [|p6 rest]]]]]]] eqn:Ep;
    try discriminate.
  destruct (list_index _ _) as [i|]; [|discriminate].
  destruct (nth_error _ _) as [num|]; [|discriminate].
  destruct (str_eqb num _); [|discriminate].
  destruct (process_rows (p3 ++ p4) p1 p5 (contents file)) as [rows|] eqn:Er;
    [|discriminate].
  destruct (process_rows_ok _ _ _ _ Er) as (Hu & Hm & Hc & Hn).
  cbn [bind]. intros H. inversion H; subst. clear H.
  split; [|split; [exact Hu|split; [exact Hm|split; [exact Hc|]]]].
  - rewrite <- (length_map untouched), Hu. apply length_map.
  - exists p0, p1, p2, p3, p4, p5. split; [reflexivity|].
    eapply Forall_impl; [|exact Hn]. intros r (H1 & H2 & H3). auto.
Qed.

(** X9. When in every file name the first part [condition] is the
    fourth part, every loaded record has the condition [condition1]:
    only files whose fifth part is [1] are accepted. *)
Theorem loaded_records_are_condition1 :
  forall (csv_files : list CsvFile) (df : DataFrame Row),
    (forall file i,
        In file csv_files ->
        list_index (str_of "condition") (name_parts file) = Ok i -> i = 3%nat) ->
    load_and_process_files csv_files = Ok df ->
    Forall (fun r => Condition r = str_of "condition1") (frame_rows df).
Proof.
  intros csv_files df Hname H. unfold load_and_process_files in H.
  bind_inv H. inversion H; subst. rewrite frame_rows_concat_or_blank.
  apply Forall_concat.
  eapply load_loop_cleaned; [|eassumption|constructor].
  intros file df Hin. rewrite process_file_eq.
  destruct (name_parts file)
    as [|p0 [|p1 [|p2 [|p3 [|p4 [|p5 [|p6 rest]]]]]]] eqn:Ep;
    try discriminate.
  destruct (list_index _ _) as [i|] eqn:Ei; [|discriminate].
  pose proof (Hname file i Hin) as Hi. rewrite Ep in Hi.
  specialize (Hi Ei). subst i.
  apply list_index_found in Ei. cbn [nth_error] in Ei. inversion Ei; subst p3.
  cbn [Nat.add nth_error].
  destruct (str_eqb p4 (str_of "1")) eqn:E4; [|discriminate].
  apply str_eqb_eq in E4. subst p4.
  destruct (process_rows _ _ _ _) as [rows|] eqn:Er; [|discriminate].
  destruct (process_rows_ok _ _ _ _ Er) as (_ & _ & _ & Hn).
  cbn [bind]. intros Hdf. inversion Hdf; subst.
  eapply Forall_impl; [|exact Hn]. intros r (Hc & _). exact Hc.
Qed.
End LoadProperties.

Lemma load_appends_file_lists_witness :
  exists df,
    @load_and_process_files ascii_only ([example_file] ++ [one_correct_file])
    = Ok df /\
    length (frame_rows df) = 3%nat.
Proof.
  destruct (@load_appends_file_lists ascii_only [example_file] [one_correct_file]
              _ _ eq_refl eq_refl) as (df & E & Hrows).
  exists df. split; [exact E|]. rewrite Hrows. reflexivity.
Defined.

Lemma load_blank_iff_every_file_skipped_witness :
  @load_and_process_files ascii_only
    [{| path := str_of "results_a_b_condition_1_e.csv"; contents := [] |}]
  = Ok (Table []) /\
  exists file df',
    In file [{| path := str_of "results_a_b_condition_1_e.csv";
                contents := [] |}] /\
    @process_file ascii_only file = Ok (Some df').
Proof.
  split; [reflexivity|].
  exact (proj2 (@load_blank_iff_every_file_skipped ascii_only
                  [{| path := str_of "results_a_b_condition_1_e.csv";
                      contents := [] |}] (Table []) eq_refl) [] eq_refl).
Defined.

Lemma accepted_file_keeps_rows_in_order_witness :
  exists df,
    @process_file ascii_only example_file = Ok (Some df) /\
    length df = 2%nat /\
    map Model_Answer df = [Some (str_of "a"); Some (str_of "AB")].
Proof.
  destruct (@process_file ascii_only example_file) as [[df|]|e] eqn:E.
  - exists df. split; [reflexivity|].
    pose proof (@accepted_file_keeps_rows_in_order ascii_only _ _ E)
      as (Hl & _ & Hm & _).
    split; [exact Hl | exact Hm].
  - vm_compute in E. discriminate E.
  - vm_compute in E. discriminate E.
Defined.

Lemma loaded_records_are_condition1_witness :
  exists df,
    @load_and_process_files ascii_only [example_file] = Ok df /\
    Forall (fun r => Condition r = str_of "condition1") (frame_rows df).
Proof.
  eexists. split; [reflexivity|].
  apply (@loaded_records_are_condition1 ascii_only [example_file]);
    [|reflexivity].
  intros file i [<-|[]] H. vm_compute in H. now inversion H.
Defined.

(** Without that convention a record can carry another condition: this
    name is accepted for the [1] after its first [condition], and its
    records are labelled [condition2]. *)
Lemma condition_column_follows_fourth_and_fifth_part :
  exists df,
    @load_and_process_files ascii_only
      [{| path := str_of "results_condition_1_condition_2_single.csv";
          contents := [raw_row "qwen" "A" "A"] |}] = Ok df /\
    map Condition (frame_rows df) = [str_of "condition2"].
Proof. eexists. split; reflexivity. Qed.

Section CorrectnessProperties.
Context {U : UnicodeData}.

Lemma series_eq_clean_answer (x y : cell) :
  series_eq (clean_answer x) (clean_answer y) = true <->
  exists a b, x = Some a /\ y = Some b /\ filter isalpha a = filter isalpha b.
Proof.
  destruct x as [a|], y as [b|];
    try (simpl; split; [discriminate | intros (a' & b' & H1 & H2 & _); congruence]).
  rewrite !clean_answer_some. simpl. rewrite str_eqb_eq. split.
  - intros H. now exists a, b.
  - intros (a' & b' & H1 & H2 & H). congruence.
Qed.

(** X2. A loaded record is marked correct exactly when both answers of
    its row are present and have the same letters in the same order:
    characters that are not letters never matter, two answers with no
    letter at all count as equal, and a missing answer is never
    correct. *)
Theorem loaded_correctness_compares_letters :
  forall (csv_files : list CsvFile) (df : DataFrame Row),
    load_and_process_files csv_files = Ok df ->
    Forall (fun r =>
              exists file raw,
                In file csv_files /\ In raw (contents file) /\
                Model_Answer r = clean_answer (Raw.Model_Answer raw) /\
                Correct_Answer r = clean_answer (Raw.Correct_Answer raw) /\
                (Is_Correct r = true <->
                 exists a b,
                   Raw.Model_Answer raw = Some a /\
                   Raw.Correct_Answer raw = Some b /\
                   filter isalpha a = filter isalpha b))
           (frame_rows df).
Proof.
  intros csv_files df H. unfold load_and_process_files in H.
  bind_inv H. inversion H; subst. rewrite frame_rows_concat_or_blank.
  apply Forall_concat.
  eapply load_loop_cleaned; [|eassumption|constructor].
  intros file df Hin Hf.
  eapply Forall_impl; [|apply (process_file_cleaned _ Hf)].
  intros r (raw & Hraw & Hm & Hc & Hi). exists file, raw.
  repeat (split; [assumption|]). rewrite Hi. apply series_eq_clean_answer.
Qed.
End CorrectnessProperties.

Lemma loaded_correctness_compares_letters_witness :
  exists df,
    @load_and_process_files ascii_only [example_file] = Ok df /\
    map Is_Correct (frame_rows df) = [false; true] /\
    Forall (fun r => exists file raw,
                In file [example_file] /\ In raw (contents file) /\
                Model_Answer r = @clean_answer ascii_only (Raw.Model_Answer raw))
           (frame_rows df).
Proof.
  eexists. split; [reflexivity|]. split; [reflexivity|].
  eapply Forall_impl;
    [|apply (@loaded_correctness_compares_letters ascii_only [example_file]);
      reflexivity].
  intros r (file & raw & H1 & H2 & H3 & _). now exists file, raw.
Defined.

(** ** More on [create_samples] *)




Lemma assign_ids_Forall (P : Row -> Prop) (start : nat) (rows : list Row) :
  Forall P rows ->
  Forall (fun s => P (base s) /\ code s = None /\ comment s = None)
         (assign_ids start rows).
Proof.
  intros H. revert start. induction H as [|r rows Hr _ IH]; intros start.
  - constructor.
  - rewrite assign_ids_cons. constructor; [now repeat split | apply IH].
Qed.

(** X11. Every sample that [create_samples] returns is a row of the
    table with a model name: rows whose model is missing are never
    sampled.  The samples of the first table are correct answers, those
    of the second are incorrect answers, and all of them have blank
    [code] and [comment] columns. *)
Theorem samples_are_rows_with_a_model :
  forall (rng : RandomState) (df : DataFrame Row) (t f : list Sample),
    create_samples rng df = Ok (t, f) ->
    Forall (fun s => (In (base s) (frame_rows df) /\ Model (base s) <> None /\
                      Is_Correct (base s) = true) /\
                     code s = None /\ comment s = None) t /\
    Forall (fun s => (In (base s) (frame_rows df) /\ Model (base s) <> None /\
                      Is_Correct (base s) = false) /\
                     code s = None /\ comment s = None) f.
Proof.
  intros rng df t f H. apply create_samples_inv in H.
  destruct H as (rows & -> & _ & _ & -> & ->). cbn [frame_rows]. split.
  - apply assign_ids_Forall
      with (P := fun r => In r rows /\ Model r <> None /\ Is_Correct r = true).
    apply Forall_forall. intros r Hr.
    apply (Permutation_in _ (sort_rows_Permutation _)) in Hr.
    now apply true_frames_rows in Hr.
  - apply assign_ids_Forall
      with (P := fun r => In r rows /\ Model r <> None /\ Is_Correct r = false).
    apply Forall_forall. intros r Hr.
    apply (Permutation_in _ (sort_rows_Permutation _)) in Hr.
    apply In_false_frames in Hr. tauto.
Qed.

Lemma samples_are_rows_with_a_model_witness :
  exists t f,
    create_samples reversing_state example_table = Ok (t, f) /\
    Forall (fun s => Is_Correct (base s) = true) t /\
    Forall (fun s => Is_Correct (base s) = false) f.
Proof.
  destruct (create_samples reversing_state example_table) as [[t f]|e] eqn:E.
  - exists t, f. split; [reflexivity|].
    destruct (samples_are_rows_with_a_model _ _ E) as [Ht Hf].
    split.
    + eapply Forall_impl; [|exact Ht]. intros s ((_ & _ & H) & _). exact H.
    + eapply Forall_impl; [|exact Hf]. intros s ((_ & _ & H) & _). exact H.
  - vm_compute in E. discriminate E.
Defined.

Lemma filter_disjoint_or {A} (P Q : A -> bool) (l : list A) :
  (forall x, In x l -> P x = true -> Q x = true -> False) ->
  Permutation (filter P l ++ filter Q l) (filter (fun x => P x || Q x) l).
Proof.
  induction l as [|x l IH]; intros H; [reflexivity|].
  assert (Permutation (filter P l ++ filter Q l)
                      (filter (fun x => P x || Q x) l)) as IH'
    by (apply IH; intros y Hy; apply H; now right).
  simpl. destruct (P x) eqn:EP, (Q x) eqn:EQ; simpl.
  - exfalso. apply (H x); auto. now left.
  - now constructor.
  - rewrite <- IH'. symmetry. apply Permutation_middle.
  - exact IH'.
Qed.

Lemma concat_model_rows (rows : list Row) (models : list cell) :
  NoDup models ->
  Permutation
    (concat (map (fun model => model_rows model rows) models))
    (filter (fun r => existsb (fun model => series_eq (Model r) model) models)
            rows).
Proof.
  induction 1 as [|model rest Hnotin _ IH]; cbn [map concat existsb].
  - induction rows as [|r rows IHr]; [reflexivity|exact IHr].
  - rewrite IH. unfold model_rows. apply filter_disjoint_or.
    intros r _ H1 H2. apply existsb_exists in H2.
    destruct H2 as (model' & Hin & H2).
    apply series_eq_model in H1, H2. destruct H1 as [H1 _], H2 as [H2 _].
    apply Hnotin. congruence.
Qed.

Lemma has_model_in_unique (rows : list Row) (r : Row) :
  In r rows ->
  existsb (fun model => series_eq (Model r) model) (unique (map Model rows))
  = notna (Model r).
Proof.
  intros Hr. destruct (Model r) as [m|] eqn:Em; cbn [notna isna negb].
  - apply existsb_exists. exists (Some m). split.
    + apply unique_In. rewrite <- Em. now apply in_map.
    + apply str_eqb_refl.
  - destruct (existsb _ _) eqn:E; [|reflexivity].
    apply existsb_exists in E. destruct E as (x & _ & Hx). discriminate Hx.
Qed.

(** The incorrect sample, over all models at once. *)
Lemma false_frames_Permutation (rows : list Row) :
  Permutation
    (concat (false_frames rows (unique (map Model rows))))
    (incorrect_rows (filter (fun r => notna (Model r)) rows)).
Proof.
  rewrite concat_false_frames.
  rewrite <- (map_map (fun model => model_rows model rows) incorrect_rows).
  unfold incorrect_rows at 1. rewrite concat_filter_map.
  fold (incorrect_rows
          (concat (map (fun model => model_rows model rows)
                       (unique (map Model rows))))).
  unfold incorrect_rows. apply filter_Permutation.
  rewrite concat_model_rows by apply unique_NoDup.
  erewrite filter_ext_in; [reflexivity|].
  intros r Hr. now apply has_model_in_unique.
Qed.

Lemma list_sum_le_bound (bound : nat) (l : list nat) :
  Forall (fun n => (n <= bound)%nat) l -> (list_sum l <= bound * length l)%nat.
Proof. induction 1 as [|n l Hn _ IH]; simpl; lia. Qed.

(** X12. The size of the samples: the correct sample has
    [min(30, n)] rows for each model name found in the table, [n]
    being the model's correct answers, hence at most 30 per model; the
    incorrect sample is, as a multiset, the incorrect and not declined
    rows of the table that have a model name, so it is as large as
    their number. *)
Theorem sample_sizes :
  forall (rng : RandomState) (df : DataFrame Row) (t f : list Sample),
    create_samples rng df = Ok (t, f) ->
    let rows := frame_rows df in
    let models := unique (map Model rows) in
    length t =
      list_sum (map (fun model =>
                       Nat.min 30 (length (correct_rows (model_rows model rows))))
                    models) /\
    (length t <= 30 * length models)%nat /\
    Permutation (map base f)
                (incorrect_rows (filter (fun r => notna (Model r)) rows)) /\
    length f =
      length (incorrect_rows (filter (fun r => notna (Model r)) rows)).
Proof.
  intros rng df t f H. apply create_samples_inv in H.
  destruct H as (rows & -> & _ & _ & Ht & Hf). cbv zeta. cbn [frame_rows].
  assert (length t =
          list_sum (map (fun model =>
                           Nat.min 30
                             (length (correct_rows (model_rows model rows))))
                        (unique (map Model rows)))) as HT.
  { rewrite Ht, assign_ids_length.
    rewrite (Permutation_length (sort_rows_Permutation _)).
    rewrite concat_true_frames, length_concat, map_map. f_equal.
    apply map_ext. intros model. apply true_frame_length. }
  assert (Permutation (map base f)
            (incorrect_rows (filter (fun r => notna (Model r)) rows))) as HF.
  { rewrite Hf, assign_ids_base, sort_rows_Permutation.
    apply false_frames_Permutation. }
  split; [exact HT|]. split; [|split; [exact HF|]].
  - rewrite HT.
    rewrite <- (length_map
                  (fun model =>
                     Nat.min 30 (length (correct_rows (model_rows model rows))))
                  (unique (map Model rows))).
    apply list_sum_le_bound. apply Forall_forall. intros n Hn.
    apply in_map_iff in Hn. destruct Hn as (model & <- & _). lia.
  - rewrite <- (Permutation_length HF). now rewrite length_map.
Qed.

Lemma sample_sizes_witness :
  exists t f,
    create_samples reversing_state sized_table = Ok (t, f) /\
    length t = 35%nat /\ length f = 1%nat.
Proof.
  destruct (create_samples reversing_state sized_table) as [[t f]|e] eqn:E.
  - exists t, f. split; [reflexivity|].
    pose proof (sample_sizes _ _ E) as H. cbv zeta in H.
    destruct H as (Ht & _ & _ & Hf). split.
    + rewrite Ht. vm_compute. reflexivity.
    + rewrite Hf. vm_compute. reflexivity.
  - vm_compute in E. discriminate E.
Defined.

Lemma take_app {A} (rows : list A) (a b : list nat) :
  take rows (a ++ b) = take rows a ++ take rows b.
Proof. unfold take. apply flat_map_app. Qed.

(** Sampling is without replacement: the rows drawn, together with the
    rows left, are the table. *)
Lemma sample_without_replacement (rng : RandomState) {A} (rows s : list A)
    (n seed : nat) :
  sample rng rows n seed = Ok s ->
  exists rest, Permutation (s ++ rest) rows.
Proof.
  unfold sample. destruct (length rows <? n)%nat; [discriminate|].
  intros H. inversion H; subst. clear H.
  exists (take rows (skipn n (permutation rng seed (length rows)))).
  rewrite <- take_app, firstn_skipn.
  transitivity (take rows (seq 0 (length rows))).
  - apply take_Permutation, permutation_spec.
  - now rewrite take_seq.
Qed.

Lemma true_frame_without_replacement (rng : RandomState) (rows : list Row)
    (model : cell) :
  exists rest,
    Permutation (true_frame rng rows model ++ rest)
                (correct_rows (model_rows model rows)).
Proof.
  eapply sample_without_replacement with (rng := rng).
  unfold true_frame. cbv zeta. apply sample_eq, Nat.le_min_r.
Qed.

(** X13. No correct answer is sampled twice: for every model, the rows
    of the correct sample together with some rows not drawn are, as a
    multiset, the model's correct answers in the table. *)
Theorem correct_sample_without_replacement :
  forall (rng : RandomState) (df : DataFrame Row) (t f : list Sample),
    create_samples rng df = Ok (t, f) ->
    forall m : pystr,
      exists rest,
        Permutation (of_model m (map base t) ++ rest)
                    (correct_rows (of_model m (frame_rows df))).
Proof.
  intros rng df t f H m. apply create_samples_inv in H.
  destruct H as (rows & -> & _ & _ & -> & _). cbn [frame_rows].
  rewrite assign_ids_base.
  assert (Permutation
            (of_model m (sort_rows (concat (true_frames rng rows
                                              (unique (map Model rows))))))
            (if existsb (same_value (Some m)) (unique (map Model rows))
             then true_frame rng rows (Some m) else [])) as HP.
  { rewrite <- of_model_true_frames. apply filter_Permutation.
    apply sort_rows_Permutation. }
  destruct (existsb _ _) eqn:E.
  - destruct (true_frame_without_replacement rng rows (Some m)) as [rest Hr].
    exists rest. now rewrite HP.
  - exists []. rewrite HP. now rewrite (of_model_absent _ _ E).
Qed.

Lemma correct_sample_without_replacement_witness :
  exists t f rest,
    create_samples reversing_state sized_table = Ok (t, f) /\
    Permutation (of_model (str_of "qwen") (map base t) ++ rest)
                (correct_rows (of_model (str_of "qwen") (frame_rows sized_table))) /\
    length rest = 5%nat.
Proof.
  destruct (create_samples reversing_state sized_table) as [[t f]|e] eqn:E.
  - destruct (correct_sample_without_replacement _ _ E (str_of "qwen"))
      as [rest Hr].
    exists t, f, rest. split; [reflexivity|]. split; [exact Hr|].
    apply Permutation_length in Hr. rewrite length_app in Hr.
    assert (length (of_model (str_of "qwen") (map base t)) = 30%nat) as Ht
      by (vm_compute in E; inversion E; reflexivity).
    assert (length (correct_rows
                      (of_model (str_of "qwen") (frame_rows sized_table)))
            = 35%nat) as Hn by (vm_compute; reflexivity).
    rewrite Ht, Hn in Hr. lia.
  - vm_compute in E. discriminate E.
Defined.

(** ** More on the rater files *)

(** X14. The reliability and rater cells return exactly when the
    sample table has at least 30 rows; with fewer, the reliability
    cell raises [ValueError], and no other exception is possible. *)
Theorem rater_files_returns_iff :
  forall (rng : RandomState) (samples : list Sample),
    ((exists reliability batches,
         rater_files rng samples = Ok (reliability, batches)) <->
     (30 <= length samples)%nat) /\
    (rater_files rng samples = Raise ValueError <-> (length samples < 30)%nat) /\
    (forall e, rater_files rng samples = Raise e -> e = ValueError).
Proof.
  intros rng samples.
  destruct (Nat.le_gt_cases 30 (length samples)) as [H|H].
  - destruct (rater_files_returns rng samples H) as (r & b & E). rewrite E.
    split; [split; [intros _; exact H | eauto]|].
    split; [split; [discriminate | lia] | discriminate].
  - rewrite (rater_files_raises rng samples H).
    split; [split; [intros (r & b & E); discriminate E | lia]|].
    split; [split; auto | congruence].
Qed.

Lemma rater_ids (samples : list Sample) :
  map Rater.Sample_ID (map rater_columns samples) = map Sample_ID samples.
Proof. rewrite map_map. reflexivity. Qed.

Lemma NoDup_app_disjoint {A} (l1 l2 : list A) (a : A) :
  NoDup (l1 ++ l2) -> In a l1 -> In a l2 -> False.
Proof.
  induction l1 as [|x l1 IH]; simpl; intros Hnd H1 H2; [contradiction|].
  inversion Hnd as [|? ? Hx Hnd']; subst. destruct H1 as [->|H1].
  - apply Hx, in_or_app. now right.
  - now apply IH.
Qed.

Lemma filter_none {A} (P : A -> bool) (l : list A) :
  Forall (fun x => P x = false) l -> filter P l = [].
Proof.
  induction 1 as [|x l Hx _ IH]; simpl; [reflexivity|]. now rewrite Hx.
Qed.

Lemma carve_out_rest (picked rest : list Sample) :
  NoDup (map Sample_ID (picked ++ rest)) ->
  carve_out (picked ++ rest) (map rater_columns picked) = rest.
Proof.
  intros Hnd. unfold carve_out. rewrite rater_ids, filter_app.
  rewrite map_app in Hnd.
  rewrite filter_none, filter_all; [reflexivity| |].
  - apply Forall_forall. intros s Hs. apply negb_true_iff.
    destruct (isin (Sample_ID s) (map Sample_ID picked)) eqn:E; [|reflexivity].
    apply isin_In in E. exfalso.
    apply (NoDup_app_disjoint _ _ (Sample_ID s) Hnd E). now apply in_map.
  - apply Forall_forall. intros s Hs. apply negb_false_iff, isin_In.
    now apply in_map.
Qed.

(** With identifiers that are pairwise different, the rows set aside
    and the rows handed to raters are the whole table. *)
Lemma rater_files_cover (rng : RandomState) (samples : list Sample)
    (reliability : list Rater.row) (batches : list (list Rater.row)) :
  NoDup (map Sample_ID samples) ->
  rater_files rng samples = Ok (reliability, batches) ->
  Permutation (reliability ++ concat batches) (map rater_columns samples).
Proof.
  intros Hnd H. apply rater_files_inv in H.
  destruct H as (picked & shuffled & Hp & -> & Hperm & ->).
  rewrite export_batches_concat, Hperm, <- map_app. apply Permutation_map.
  destruct (sample_without_replacement _ _ _ _ Hp) as [rest Hrest].
  transitivity (picked ++ rest); [|exact Hrest].
  apply Permutation_app_head.
  assert (NoDup (map Sample_ID (picked ++ rest))) as Hnd'
    by (eapply Permutation_NoDup; [|exact Hnd];
        apply Permutation_map, Permutation_sym, Hrest).
  transitivity (carve_out (picked ++ rest) (map rater_columns picked));
    [|now rewrite carve_out_rest].
  unfold carve_out. apply filter_Permutation, Permutation_sym, Hrest.
Qed.

(** X15. When the sample identifiers are pairwise different, the
    reliability file and the batch files together hold every sample
    exactly once, so the batches hold all but the 30 rows set aside. *)
Theorem reliability_and_batches_cover_samples :
  forall (rng : RandomState) (samples : list Sample)
         (reliability : list Rater.row) (batches : list (list Rater.row)),
    NoDup (map Sample_ID samples) ->
    rater_files rng samples = Ok (reliability, batches) ->
    Permutation (reliability ++ concat batches) (map rater_columns samples) /\
    length (concat batches) = (length samples - 30)%nat /\
    length batches = ((length samples - 30) / 100 + 1)%nat.
Proof.
  intros rng samples reliability batches Hnd H.
  pose proof (rater_files_cover rng samples Hnd H) as Hcover.
  assert (length reliability = 30%nat) as Hrel.
  { apply rater_files_inv in H.
    destruct H as (picked & _ & Hp & -> & _). apply sample_inv in Hp.
    rewrite length_map. tauto. }
  assert (length (concat batches) = (length samples - 30)%nat) as Hlen.
  { apply Permutation_length in Hcover.
    rewrite length_app, length_map, Hrel in Hcover. lia. }
  split; [exact Hcover|]. split; [exact Hlen|].
  apply rater_files_inv in H. destruct H as (_ & shuffled & _ & _ & _ & ->).
  rewrite export_batches_count. rewrite export_batches_concat in Hlen.
  now rewrite Hlen.
Qed.

Lemma reliability_and_batches_cover_samples_witness :
  exists reliability batches,
    rater_files reversing_state (example_samples 135) = Ok (reliability, batches) /\
    length (concat batches) = 105%nat /\ length batches = 2%nat.
Proof.
  destruct (rater_files reversing_state (example_samples 135))
    as [[reliability batches]|e] eqn:E.
  - exists reliability, batches. split; [reflexivity|].
    assert (NoDup (map Sample_ID (example_samples 135))) as Hnd
      by (unfold example_samples; rewrite assign_ids_ids; apply sample_ids_NoDup).
    destruct (reliability_and_batches_cover_samples _ _ Hnd E) as (_ & Hl & Hb).
    split; [rewrite Hl | rewrite Hb]; reflexivity.
  - vm_compute in E. discriminate E.
Defined.

(** X16. The export always writes one file more than there are full
    batches: [n // 100 + 1] files for [n] rows, the last holding the
    [n mod 100] rows left over.  When [n] is a multiple of 100, and so
    for an empty table too, the last file has no rows. *)
Theorem export_writes_a_last_partial_batch :
  forall rater : list Rater.row,
    length (export_batches rater) = (length rater / 100 + 1)%nat /\
    (exists b,
        nth_error (export_batches rater) (length rater / 100) = Some b /\
        length b = (length rater mod 100)%nat /\
        ((length rater mod 100 = 0)%nat -> b = [])) /\
    export_batches [] = [[]].
Proof.
  intros rater. split; [apply export_batches_count|]. split; [|reflexivity].
  destruct (nth_error (export_batches rater) (length rater / 100)) as [b|] eqn:E.
  - exists b. split; [reflexivity|].
    pose proof (proj2 (proj2 (export_batches_sizes rater)) b E) as Hb.
    split; [exact Hb|]. intros H0. apply length_zero_iff_nil.
    unfold batch_size in Hb. lia.
  - apply nth_error_None in E. rewrite export_batches_count in E.
    unfold batch_size in E. lia.
Qed.

Lemma create_samples_ids_NoDup (rng : RandomState) (df : DataFrame Row)
    (t f : list Sample) :
  create_samples rng df = Ok (t, f) ->
  NoDup (map Sample_ID (t ++ f)).
Proof.
  intros H. rewrite (create_samples_ids _ _ H). apply sample_ids_NoDup.
Qed.

(** X17. Across the whole notebook: when it returns, both sample
    tables have at least 30 rows, every sample of a table is in exactly
    one of that table's reliability and batch files, and no identifier
    occurs twice over all the files handed out. *)
Theorem notebook_hands_out_every_sample_once :
  forall {U : UnicodeData} (rng : RandomState) (csv_files : list CsvFile)
         (t f : list Sample)
         (true_files false_files : list Rater.row * list (list Rater.row)),
    notebook rng csv_files = Ok ((t, f), true_files, false_files) ->
    (30 <= length t)%nat /\ (30 <= length f)%nat /\
    Permutation (fst true_files ++ concat (snd true_files))
                (map rater_columns t) /\
    Permutation (fst false_files ++ concat (snd false_files))
                (map rater_columns f) /\
    NoDup (map Rater.Sample_ID
               ((fst true_files ++ concat (snd true_files)) ++
                (fst false_files ++ concat (snd false_files)))).
Proof.
  intros U rng csv_files t f [rt bt] [rf bf] H. unfold notebook in H.
  bind_inv H. bind_inv H. destruct a0 as [t' f']. cbn [fst snd] in H.
  bind_inv H. bind_inv H. inversion H; subst. clear H.
  rename E0 into Hc, E1 into Ht, E2 into Hf. cbn [fst snd].
  pose proof (create_samples_ids_NoDup _ _ Hc) as Hnd.
  rewrite map_app in Hnd.
  pose proof (NoDup_app_remove_r _ _ Hnd) as Hndt.
  pose proof (NoDup_app_remove_l _ _ Hnd) as Hndf.
  pose proof (rater_files_cover rng t Hndt Ht) as Pt.
  pose proof (rater_files_cover rng f Hndf Hf) as Pf.
  split; [|split; [|split; [exact Pt|split; [exact Pf|]]]].
  - destruct (Nat.le_gt_cases 30 (length t)) as [L|L]; [exact L|].
    rewrite (rater_files_raises rng t L) in Ht. discriminate.
  - destruct (Nat.le_gt_cases 30 (length f)) as [L|L]; [exact L|].
    rewrite (rater_files_raises rng f L) in Hf. discriminate.
  - eapply Permutation_NoDup; [|exact Hnd].
    rewrite map_app, <- !rater_ids. symmetry.
    apply Permutation_app; now apply Permutation_map.
Qed.

(** X18. Up to [S999] an identifier has four characters and the
    identifiers are ordered as strings the way they are numbered. *)
Theorem sample_ids_sort_as_strings :
  forall i j : nat,
    (i < j)%nat -> (j <= 999)%nat ->
    str_compare (sample_id i) (sample_id j) = Lt /\
    length (sample_id i) = 4%nat /\ length (sample_id j) = 4%nat.
Proof.
  intros i j Hij Hj.
  assert (forall k, (k <= 999)%nat -> length (sample_id k) = 4%nat) as Hlen.
  { intros k Hk.
    assert (forallb (fun k => (length (sample_id k) =? 4)%nat) (seq 0 1000)
            = true) as H by (vm_compute; reflexivity).
    rewrite forallb_forall in H. apply Nat.eqb_eq, H, in_seq. lia. }
  split; [now apply sample_id_string_order_up_to_999|].
  split; apply Hlen; lia.
Qed.

Lemma sample_ids_sort_as_strings_witness :
  str_compare (sample_id 9) (sample_id 10) = Lt /\
  length (sample_id 9) = 4%nat /\ length (sample_id 10) = 4%nat.
Proof. apply sample_ids_sort_as_strings; lia. Defined.

Lemma notebook_hands_out_every_sample_once_witness :
  exists t f true_files false_files,
    @notebook ascii_only reversing_state [large_file]
    = Ok ((t, f), true_files, false_files) /\
    length t = 30%nat /\ length f = 31%nat /\
    Permutation (fst false_files ++ concat (snd false_files))
                (map rater_columns f).
Proof.
  destruct (@notebook ascii_only reversing_state [large_file])
    as [[[[t f] true_files] false_files]|e] eqn:E.
  - exists t, f, true_files, false_files. split; [reflexivity|].
    pose proof (@notebook_hands_out_every_sample_once ascii_only _ _ _ _ _ _ E)
      as (_ & _ & _ & Pf & _).
    split; [|split; [|exact Pf]];
      vm_compute in E; inversion E; reflexivity.
  - vm_compute in E. discriminate E.
Defined.

(** ** The cells after labelling *)

Lemma matching_samples_In (id : cell) (samples : list Sample) (s : Sample) :
  In s (matching_samples id samples) <->
  In s samples /\ id = Some (Sample_ID s).
Proof.
  unfold matching_samples. rewrite filter_In, series_eq_some. tauto.
Qed.

Lemma matching_samples_unique (samples : list Sample) (s : Sample) :
  NoDup (map Sample_ID samples) -> In s samples ->
  matching_samples (Some (Sample_ID s)) samples = [s].
Proof.
  unfold matching_samples.
  induction samples as [|s' samples IH]; intros Hnd Hin; [contradiction|].
  inversion Hnd as [|? ? Hnot Hnd']; subst. cbn [filter series_eq].
  destruct Hin as [->|Hin].
  - rewrite str_eqb_refl. f_equal. apply filter_none.
    apply Forall_forall. intros x Hx. cbn [series_eq]. apply str_eqb_neq.
    intros Heq. apply Hnot. rewrite Heq. now apply in_map.
  - destruct (str_eqb (Sample_ID s) (Sample_ID s')) eqn:E; [|now apply IH].
    apply str_eqb_eq in E. exfalso. apply Hnot. rewrite <- E. now apply in_map.
Qed.

Lemma matching_samples_at_most_one (id : cell) (samples : list Sample) :
  NoDup (map Sample_ID samples) ->
  matching_samples id samples = [] \/
  exists s, In s samples /\ id = Some (Sample_ID s) /\
            matching_samples id samples = [s].
Proof.
  intros Hnd. destruct (matching_samples id samples) as [|s l] eqn:E;
    [now left|right].
  assert (In s (matching_samples id samples)) as Hs by (rewrite E; now left).
  apply matching_samples_In in Hs. destruct Hs as [Hin Hid].
  exists s. split; [assumption|]. split; [assumption|].
  rewrite <- E, Hid. now apply matching_samples_unique.
Qed.

Lemma merge_rows_cons (rl : Labeled.row * cell)
    (frame : list (Labeled.row * cell)) (samples : list Sample) :
  merge_rows (rl :: frame) samples =
  merge_rows [rl] samples ++ merge_rows frame samples.
Proof. unfold merge_rows. cbn [flat_map]. now rewrite app_nil_r. Qed.

(** One labelled row against samples with different identifiers. *)
Lemma merge_rows_one (rl : Labeled.row * cell) (samples : list Sample) :
  NoDup (map Sample_ID samples) ->
  exists e q,
    merge_rows [rl] samples =
      [ {| Merged.labeled := fst rl; Merged.label := snd rl;
           Merged.Exam_Type := e; Merged.Question_Type := q |} ] /\
    (forall s, In s samples -> Labeled.Sample_ID (fst rl) = Some (Sample_ID s) ->
               e = Some (Exam_Type (base s)) /\
               q = Some (Question_Type (base s))) /\
    ((forall s, In s samples ->
                Labeled.Sample_ID (fst rl) <> Some (Sample_ID s)) ->
     e = None /\ q = None).
Proof.
  intros Hnd. unfold merge_rows. cbn [flat_map]. rewrite app_nil_r.
  destruct (matching_samples_at_most_one (Labeled.Sample_ID (fst rl)) samples Hnd)
    as [E|(s & Hin & Hid & E)]; rewrite E.
  - exists None, None. split; [reflexivity|]. split; [|auto].
    intros s Hin Hid.
    assert (In s (matching_samples (Labeled.Sample_ID (fst rl)) samples)) as Hs
      by now apply matching_samples_In.
    rewrite E in Hs. contradiction.
  - exists (Some (Exam_Type (base s))), (Some (Question_Type (base s))).
    split; [reflexivity|]. split.
    + intros s' Hin' Hid'.
      assert (In s' (matching_samples (Labeled.Sample_ID (fst rl)) samples))
        as Hs by now apply matching_samples_In.
      rewrite E in Hs. destruct Hs as [->|[]]. now split.
    + intros Hno. exfalso. exact (Hno s Hin Hid).
Qed.

Lemma merge_rows_looked_up (frame : list (Labeled.row * cell))
    (samples : list Sample) :
  NoDup (map Sample_ID samples) ->
  map (fun m => (Merged.labeled m, Merged.label m)) (merge_rows frame samples)
  = frame /\
  Forall (fun m =>
            (forall s, In s samples ->
                       Labeled.Sample_ID (Merged.labeled m)
                       = Some (Sample_ID s) ->
                       Merged.Exam_Type m = Some (Exam_Type (base s)) /\
                       Merged.Question_Type m
                       = Some (Question_Type (base s))) /\
            ((forall s, In s samples ->
                        Labeled.Sample_ID (Merged.labeled m)
                        <> Some (Sample_ID s)) ->
             Merged.Exam_Type m = None /\ Merged.Question_Type m = None))
         (merge_rows frame samples).
Proof.
  intros Hnd.
  induction frame as [|rl frame [IH1 IH2]]; [split; [reflexivity|constructor]|].
  rewrite merge_rows_cons.
  destruct (merge_rows_one rl samples Hnd) as (e & q & -> & Hfound & Hnone).
  cbn [app map Merged.labeled Merged.label]. split.
  - rewrite IH1. now destruct rl.
  - constructor; [|exact IH2]. cbn. split; assumption.
Qed.

Lemma merge_left_ok (frame : list (Labeled.row * cell))
    (samples : list Sample) (merged : list Merged.row) :
  merge_left frame samples = Ok merged -> merged = merge_rows frame samples.
Proof.
  unfold merge_left. destruct (key_mismatch frame samples); [discriminate|].
  congruence.
Qed.

Lemma key_mismatch_true (frame : list (Labeled.row * cell))
    (samples : list Sample) :
  key_mismatch frame samples = true <->
  frame <> [] /\ samples <> [] /\
  forall rl, In rl frame -> Labeled.Sample_ID (fst rl) = None.
Proof.
  unfold key_mismatch. rewrite !andb_true_iff, !negb_true_iff. split.
  - intros [[Hf Hs] He]. split; [now destruct frame|].
    split; [now destruct samples|].
    intros rl Hin. destruct (Labeled.Sample_ID (fst rl)) as [x|] eqn:E;
      [|reflexivity].
    assert (existsb (fun rl => is_text (Labeled.Sample_ID (fst rl))) frame
            = true) as H.
    { apply existsb_exists. exists rl. split; [assumption|]. now rewrite E. }
    congruence.
  - intros (Hf & Hs & Hall). split; [split|].
    + now destruct frame.
    + now destruct samples.
    + destruct (existsb _ frame) eqn:E; [|reflexivity].
      apply existsb_exists in E. destruct E as (rl & Hin & Ht).
      rewrite (Hall rl Hin) in Ht. discriminate Ht.
Qed.

Lemma key_mismatch_text (frame : list (Labeled.row * cell))
    (picked samples : list Sample) :
  map (fun rl => Labeled.Sample_ID (fst rl)) frame
  = map (fun s => Some (Sample_ID s)) picked ->
  key_mismatch frame samples = false.
Proof.
  intros H. destruct (key_mismatch frame samples) eqn:E; [|reflexivity].
  apply key_mismatch_true in E. destruct E as (Hf & _ & Hall).
  destruct frame as [|rl frame]; [contradiction|].
  destruct picked as [|s picked]; [discriminate H|].
  cbn [map] in H. injection H as H _.
  rewrite (Hall rl (or_introl eq_refl)) in H. discriminate H.
Qed.

(** X19. Against a sample table whose identifiers are pairwise
    different, a merge that returns keeps every labelled row exactly
    once and in order, with its label; a row gets the exam type and
    the question type of the sample that has its identifier, and
    missing values when no sample has it. *)
Theorem merge_returns_each_row_once :
  forall (frame : list (Labeled.row * cell)) (samples : list Sample)
         (merged : list Merged.row),
    NoDup (map Sample_ID samples) ->
    merge_left frame samples = Ok merged ->
    map (fun m => (Merged.labeled m, Merged.label m)) merged = frame /\
    Forall (fun m =>
              (forall s, In s samples ->
                         Labeled.Sample_ID (Merged.labeled m)
                         = Some (Sample_ID s) ->
                         Merged.Exam_Type m = Some (Exam_Type (base s)) /\
                         Merged.Question_Type m
                         = Some (Question_Type (base s))) /\
              ((forall s, In s samples ->
                          Labeled.Sample_ID (Merged.labeled m)
                          <> Some (Sample_ID s)) ->
               Merged.Exam_Type m = None /\ Merged.Question_Type m = None))
           merged.
Proof.
  intros frame samples merged Hnd H. apply merge_left_ok in H. subst merged.
  now apply merge_rows_looked_up.
Qed.

Lemma merge_returns_each_row_once_witness :
  let samples := example_samples 3 in
  let frame := map (fun s => (labeled_for None s, @None pystr)) (rev samples) in
  exists merged,
    merge_left frame samples = Ok merged /\
    map (fun m => (Merged.labeled m, Merged.label m)) merged = frame.
Proof.
  cbv zeta. eexists. split; [reflexivity|].
  apply (merge_returns_each_row_once
           (map (fun s => (labeled_for None s, @None pystr))
                (rev (example_samples 3)))
           (example_samples 3)); [|reflexivity].
  unfold example_samples. rewrite assign_ids_ids. apply sample_ids_NoDup.
Defined.

Lemma merge_rows_one_length (rl : Labeled.row * cell) (samples : list Sample) :
  length (merge_rows [rl] samples) =
  Nat.max 1 (length (matching_samples (Labeled.Sample_ID (fst rl)) samples)) /\
  Forall (fun m => Merged.labeled m = fst rl /\ Merged.label m = snd rl)
         (merge_rows [rl] samples).
Proof.
  unfold merge_rows. cbn [flat_map]. rewrite app_nil_r.
  destruct (matching_samples (Labeled.Sample_ID (fst rl)) samples) as [|s l].
  - split; [reflexivity|]. now repeat constructor.
  - split; [now rewrite length_map|].
    apply Forall_map. apply Forall_forall. intros x _. now split.
Qed.

Lemma merge_rows_keeps_rows (frame : list (Labeled.row * cell))
    (samples : list Sample) :
  let merged := merge_rows frame samples in
  length merged =
    list_sum (map (fun rl =>
                     Nat.max 1 (length (matching_samples
                                          (Labeled.Sample_ID (fst rl)) samples)))
                  frame) /\
  (length frame <= length merged)%nat /\
  (forall rl, In rl frame ->
              exists m, In m merged /\
                        Merged.labeled m = fst rl /\ Merged.label m = snd rl) /\
  Forall (fun m => In (Merged.labeled m, Merged.label m) frame) merged.
Proof.
  cbv zeta.
  induction frame as [|rl frame (IH1 & IH2 & IH3 & IH4)].
  - split; [reflexivity|]. split; [apply Nat.le_refl|].
    split; [intros rl []|constructor].
  - rewrite merge_rows_cons, length_app.
    destruct (merge_rows_one_length rl samples) as [Hl Hall].
    cbn [map list_sum length]. rewrite Hl.
    split; [now rewrite IH1|]. split.
    { pose proof (Nat.le_max_l 1 (length (matching_samples
                                            (Labeled.Sample_ID (fst rl)) samples)))
        as Hmax.
      apply (Nat.add_le_mono _ _ _ _ Hmax IH2). }
    split.
    + intros rl' [<-|Hin].
      * pose proof (Nat.le_max_l 1 (length (matching_samples
                                              (Labeled.Sample_ID (fst rl))
                                              samples))) as Hmax.
        rewrite <- Hl in Hmax.
        destruct (merge_rows [rl] samples) as [|m ms] eqn:E;
          [simpl in Hmax; lia|].
        exists m. split; [now left|]. now inversion Hall.
      * destruct (IH3 rl' Hin) as (m & Hm & H1 & H2). exists m.
        split; [apply in_or_app; now right | now split].
    + apply Forall_app. split.
      * eapply Forall_impl; [|exact Hall]. intros m [H1 H2].
        left. rewrite H1, H2. now destruct rl.
      * eapply Forall_impl; [|exact IH4]. intros m H. now right.
Qed.

(** X20. The merge raises, with [ValueError], exactly when both tables
    have rows and no labelled row has an identifier, and it raises
    nothing else.  Whatever the sample table, a merge that returns
    never drops a labelled row: each row comes out once, or once per
    sample that shares its identifier when several do, so the merged
    table has at least as many rows as the labelled one, all with
    their labels. *)
Theorem merge_raises_or_keeps_every_labelled_row :
  forall (frame : list (Labeled.row * cell)) (samples : list Sample),
    (forall e, merge_left frame samples = Raise e ->  e = ValueError) /\
    (merge_left frame samples = Raise ValueError <->
     frame <> [] /\ samples <> [] /\
     forall rl, In rl frame -> Labeled.Sample_ID (fst rl) = None) /\
    ((exists merged, merge_left frame samples = Ok merged) <->
     frame = [] \/ samples = [] \/
     exists rl, In rl frame /\ Labeled.Sample_ID (fst rl) <> None) /\
    (forall merged,
       merge_left frame samples = Ok merged ->
       length merged =
         list_sum (map (fun rl =>
                          Nat.max 1 (length (matching_samples
                                               (Labeled.Sample_ID (fst rl))
                                               samples)))
                       frame) /\
       (length frame <= length merged)%nat /\
       (forall rl, In rl frame ->
                   exists m, In m merged /\
                             Merged.labeled m = fst rl /\
                             Merged.label m = snd rl) /\
       Forall (fun m => In (Merged.labeled m, Merged.label m) frame) merged).
Proof.
  intros frame samples. split; [|split; [|split]].
  - unfold merge_left. destruct (key_mismatch frame samples); congruence.
  - rewrite <- key_mismatch_true. unfold merge_left.
    destruct (key_mismatch frame samples); split; congruence.
  - unfold merge_left. destruct (key_mismatch frame samples) eqn:E.
    + apply key_mismatch_true in E. destruct E as (Hf & Hs & Hall).
      split; [intros [m H]; discriminate H|].
      intros [H|[H|(rl & Hin & Hid)]]; try contradiction.
      now rewrite (Hall rl Hin) in Hid.
    + split; [|eauto]. intros _.
      unfold key_mismatch in E.
      destruct frame as [|rl0 frame]; [now left|].
      destruct samples as [|s0 samples]; [right; now left|].
      right. right. cbn [is_empty negb andb] in E.
      apply negb_false_iff, existsb_exists in E.
      destruct E as (rl & Hin & Ht). exists rl. split; [assumption|].
      destruct (Labeled.Sample_ID (fst rl)); [discriminate|discriminate Ht].
  - intros merged H. apply merge_left_ok in H. subst merged.
    apply merge_rows_keeps_rows.
Qed.

Lemma merge_rows_picked (frame : list (Labeled.row * cell))
    (picked samples : list Sample) :
  NoDup (map Sample_ID samples) ->
  incl picked samples ->
  map (fun rl => Labeled.Sample_ID (fst rl)) frame
  = map (fun s => Some (Sample_ID s)) picked ->
  map (fun m => (Labeled.Sample_ID (Merged.labeled m),
                 Merged.Exam_Type m, Merged.Question_Type m))
      (merge_rows frame samples)
  = map (fun s => (Some (Sample_ID s), Some (Exam_Type (base s)),
                   Some (Question_Type (base s)))) picked /\
  map Merged.label (merge_rows frame samples) = map snd frame.
Proof.
  intros Hnd. revert picked.
  induction frame as [|rl frame IH]; intros [|s picked] Hincl Hids;
    try discriminate Hids; [split; reflexivity|].
  cbn [map] in Hids. injection Hids as Hid Hids.
  assert (In s samples) as Hs by (apply Hincl; now left).
  assert (incl picked samples) as Hincl'
    by (intros x Hx; apply Hincl; now right).
  destruct (IH picked Hincl' Hids) as [IH1 IH2].
  rewrite merge_rows_cons.
  destruct (merge_rows_one rl samples Hnd) as (e & q & -> & Hfound & _).
  destruct (Hfound s Hs Hid) as [-> ->].
  cbn [app map Merged.labeled Merged.label Merged.Exam_Type
       Merged.Question_Type].
  now rewrite IH1, IH2, Hid.
Qed.

Lemma create_samples_flags (rng : RandomState) (df : DataFrame Row)
    (t f : list Sample) :
  create_samples rng df = Ok (t, f) ->
  Forall (fun s => Is_Correct (base s) = true) t /\
  Forall (fun s => Is_Correct (base s) = false) f.
Proof.
  intros H. apply create_samples_inv in H.
  destruct H as (rows & _ & _ & _ & -> & ->). split.
  - apply Forall_forall. intros s Hs. apply (in_map base) in Hs.
    rewrite assign_ids_base in Hs.
    apply (Permutation_in _ (sort_rows_Permutation _)) in Hs.
    now apply true_frames_rows in Hs.
  - apply Forall_forall. intros s Hs. apply (in_map base) in Hs.
    rewrite assign_ids_base in Hs.
    apply (Permutation_in _ (sort_rows_Permutation _)) in Hs.
    apply In_false_frames in Hs. tauto.
Qed.

Lemma map_pair_const {A B C} (g : A -> B) (c : C) (l : list A) :
  map (fun x => (g x, c)) l = map (fun y => (y, c)) (map g l).
Proof. now rewrite map_map. Qed.

(** X21. Round trip through the labelling.  When the two labelled
    files list identifiers of the correct and of the incorrect sample
    that [create_samples] returned, in any order and any selection, the
    cells after labelling succeed and the combined table has, row for
    row, the exam type, the question type and the correctness of the
    sample each row names, beside the reconciled labels. *)
Theorem labels_round_trip :
  forall (rng : RandomState) (df : DataFrame Row) (t f : list Sample)
         (labeled_correct labeled_incorrect : list Labeled.row)
         (picked_t picked_f : list Sample),
    create_samples rng df = Ok (t, f) ->
    incl picked_t t -> incl picked_f f ->
    map Labeled.Sample_ID labeled_correct
    = map (fun s => Some (Sample_ID s)) picked_t ->
    map Labeled.Sample_ID labeled_incorrect
    = map (fun s => Some (Sample_ID s)) picked_f ->
    exists merged_correct merged_incorrect combined,
      label_cells [labeled_correct; labeled_incorrect] t f
      = Ok (merged_correct, merged_incorrect, combined) /\
      map (fun c => (Combined.Sample_ID c, Combined.Exam_Type c,
                     Combined.Question_Type c, Combined.Is_Correct c))
          combined
      = map (fun s => (Some (Sample_ID s), Some (Exam_Type (base s)),
                       Some (Question_Type (base s)), Is_Correct (base s)))
            (picked_t ++ picked_f) /\
      map Combined.label combined
      = map label_correct labeled_correct
        ++ map label_incorrect labeled_incorrect.
Proof.
  intros rng df t f lc li pt pf Hc Hit Hif Hidt Hidf.
  pose proof (create_samples_ids_NoDup _ _ Hc) as Hnd. rewrite map_app in Hnd.
  pose proof (NoDup_app_remove_r _ _ Hnd) as Hndt.
  pose proof (NoDup_app_remove_l _ _ Hnd) as Hndf.
  destruct (create_samples_flags _ _ Hc) as [Hft Hff].
  rewrite Forall_forall in Hft, Hff.
  unfold label_cells, reconcile. cbn [getitem nth_error bind fst snd].
  unfold merge_left.
  rewrite (key_mismatch_text (add_label label_correct lc) pt t)
    by (unfold add_label; rewrite map_map; exact Hidt).
  rewrite (key_mismatch_text (add_label label_incorrect li) pf f)
    by (unfold add_label; rewrite map_map; exact Hidf).
  cbn [bind].
  eexists. eexists. eexists. split; [reflexivity|].
  destruct (merge_rows_picked (add_label label_correct lc) Hndt Hit)
    as [Ht1 Ht2].
  { unfold add_label. rewrite map_map. exact Hidt. }
  destruct (merge_rows_picked (add_label label_incorrect li) Hndf Hif)
    as [Hf1 Hf2].
  { unfold add_label. rewrite map_map. exact Hidf. }
  unfold combine. rewrite !map_app, !map_map.
  cbn [flagged Combined.Sample_ID Combined.Exam_Type Combined.Question_Type
       Combined.Is_Correct Combined.label].
  split.
  - f_equal.
    + rewrite (map_pair_const
                 (fun m => (Labeled.Sample_ID (Merged.labeled m),
                            Merged.Exam_Type m, Merged.Question_Type m)) true).
      rewrite Ht1, map_map. apply map_ext_in. intros s Hs.
      now rewrite (Hft s (Hit s Hs)).
    + rewrite (map_pair_const
                 (fun m => (Labeled.Sample_ID (Merged.labeled m),
                            Merged.Exam_Type m, Merged.Question_Type m)) false).
      rewrite Hf1, map_map. apply map_ext_in. intros s Hs.
      now rewrite (Hff s (Hif s Hs)).
  - transitivity
      (map Merged.label (merge_rows (add_label label_correct lc) t)
       ++ map Merged.label (merge_rows (add_label label_incorrect li) f));
      [reflexivity|].
    rewrite Ht2, Hf2. unfold add_label. now rewrite !map_map.
Qed.

Lemma labels_round_trip_witness :
  exists t f merged_correct merged_incorrect combined,
    create_samples reversing_state example_table = Ok (t, f) /\
    label_cells [map (labeled_for (Some (str_of "x"))) (rev t);
                 map (labeled_for None) f] t f
    = Ok (merged_correct, merged_incorrect, combined) /\
    map Combined.Is_Correct combined = [true; true; true; false; false].
Proof.
  destruct (create_samples reversing_state example_table) as [[t f]|e] eqn:E.
  - destruct (labels_round_trip reversing_state example_table
                (map (labeled_for (Some (str_of "x"))) (rev t))
                (map (labeled_for None) f)
                (picked_t := rev t) (picked_f := f) E)
      as (mc & mi & combined & Hl & Hcols & _).
    + intros s Hs. now apply in_rev.
    + apply incl_refl.
    + now rewrite map_map.
    + now rewrite map_map.
    + exists t, f, mc, mi, combined. split; [reflexivity|].
      split; [exact Hl|].
      apply (f_equal (map snd)) in Hcols. rewrite !map_map in Hcols.
      cbn [snd] in Hcols. etransitivity; [exact Hcols|].
      vm_compute in E. inversion E. reflexivity.
  - vm_compute in E. discriminate E.
Defined.
